(** * whipple_cams_to_json: the camera-geometry encoder

    A shallow embedding of [AncillaryComponents/whipple_cams_to_json.cpp]
    and the properties of its neighbour-list encoding.

    The program streams text into a [std::ostringstream]; here a stream is
    the string written so far and [oss << x] appends the rendering of [x].
    C arrays are lists; an access outside the storage of an array has no
    defined behaviour and is modelled as the failure [None].  The loops
    over the neighbour table moreover record which cells they evaluate and
    which values they stream, so that statements about "the emitted list"
    and "the cells read" are statements about the run itself. *)

From Stdlib Require Import ZArith List Bool String Ascii Lia DecimalString.
From Stdlib Require Import Floats.SpecFloat.
Import ListNotations.

Open Scope string_scope.
Open Scope Z_scope.
Open Scope list_scope.

(** ** Machine integers *)

Module CTypes.

Definition INT_MAX : Z := 2 ^ 31 - 1.
Definition INT_MIN : Z := - 2 ^ 31.
Definition SIZE_MAX : Z := 2 ^ 64 - 1.

(** The values of type [int] and of type [size_t] (LP64). *)
Definition is_int (v : Z) : Prop := INT_MIN <= v <= INT_MAX.
Definition is_size_t (n : Z) : Prop := 0 <= n <= SIZE_MAX.

Definition is_intb (v : Z) : bool := (INT_MIN <=? v) && (v <=? INT_MAX).

(** Conversion of an [int] operand to [size_t], as the usual arithmetic
    conversions do when an [int] meets a [size_t]: reduction modulo
    2^64. *)
Definition to_size_t (v : Z) : Z := v mod 2 ^ 64.

(** Subtraction on [size_t] wraps around. *)
Definition size_sub (a b : Z) : Z := (a - b) mod 2 ^ 64.

End CTypes.
Import CTypes.

(** ** Streams *)

(** [oss << x] for a stream holding [oss]: the text of [x] is appended. *)
Infix "<<<" := String.append (at level 50, left associativity).

(** A type that can be inserted into an output stream. *)
Class Insertable (T : Type) := put : T -> string.

(** Integers ([int], [unsigned], [size_t]) are written in decimal, with a
    leading minus sign when negative. *)
#[export] Instance put_integer : Insertable Z :=
  fun v => NilZero.string_of_int (Z.to_int v).

Definition dquote : string := String "034"%char EmptyString.
Definition nl : string := String "010"%char EmptyString.
Definition bslash : string := String "092"%char EmptyString.

(** ** [arrayToJsonArray] *)

Section ArrayToJson.
Context {T : Type} `{Insertable T}.

(** The [for] loop of [arrayToJsonArray]: [todo] counts the iterations
    the guard [i < npix] still admits. *)
Fixpoint array_loop (array : list T) (npix : Z) (todo : nat) (i : Z)
         (oss : string) : option string :=
  match todo with
  | O => Some oss
  | S todo' =>
      match nth_error array (Z.to_nat i) with
      | None => None
      | Some a =>
          let oss := oss <<< put a in
          let oss := if i <? size_sub npix 1 then oss <<< ", " else oss in
          array_loop array npix todo' (i + 1) oss
      end
  end.

Definition arrayToJsonArray (array : list T) (npix : Z) : option string :=
  match array_loop array npix (Z.to_nat npix) 0 "[" with
  | None => None
  | Some oss => Some (oss <<< "]")
  end.

(** The text of a sequence of values as a JSON array. *)
Definition render_array (xs : list T) : string :=
  "[" <<< String.concat ", " (map put xs) <<< "]".

End ArrayToJson.

(** ** [neighborsToJsonArray] *)

(** What a run over the neighbour table does, in order.  [Read i j]: the
    guard of the inner loop evaluates the cell [neighbors[i][j]]; the body
    of the loop evaluates the same cell again, in the range test and when
    it streams the value, which the trace does not repeat.  [Emit i v]:
    the value [v] is streamed for pixel [i]. *)
Inductive event : Type :=
| Read (i j : Z)
| Emit (i v : Z).

Definition trace := list event.

Section Neighbors.
(** The row width, a macro of [WhippleCams.h]. *)
Variable NUM_NEIGHBORS : Z.

(** A table [const int neighbors[][NUM_NEIGHBORS]] is its storage, row
    after row.  [row_base neighbors i] is the storage from
    [&neighbors[i][0]] onwards, so that [neighbors[i][j]] is its element
    number [j]. *)
Definition row_base (neighbors : list Z) (i : Z) : list Z :=
  skipn (Z.to_nat (i * NUM_NEIGHBORS)) neighbors.

(** The inner loop [for (int j = 0; neighbors[i][j] != -1; ++j)], run on
    the storage [cells] that starts at [neighbors[i][j]].  It fails when
    the guard reaches beyond the storage of the table, or when [++j]
    would leave the range of [int]. *)
Fixpoint row_loop (numTubes i : Z) (cells : list Z) (j : Z)
         (oss : string) (first : bool) : trace * option string :=
  match cells with
  | [] => ([Read i j], None)
  | v :: rest =>
      if v =? -1 then ([Read i j], Some oss)
      else if to_size_t v >=? numTubes then
        (* continue *)
        if j =? INT_MAX then ([Read i j], None)
        else
          let '(t, r) := row_loop numTubes i rest (j + 1) oss first in
          (Read i j :: t, r)
      else
        let oss := if first then oss else oss <<< ", " in
        let oss := oss <<< put v in
        if j =? INT_MAX then ([Read i j; Emit i v], None)
        else
          let '(t, r) := row_loop numTubes i rest (j + 1) oss false in
          (Read i j :: Emit i v :: t, r)
  end.

(** The outer loop [for (size_t i = 0; i < numTubes; ++i)]. *)
Fixpoint tubes_loop (neighbors : list Z) (numTubes : Z) (todo : nat)
         (i : Z) (oss : string) : trace * option string :=
  match todo with
  | O => ([], Some oss)
  | S todo' =>
      let oss := oss <<< "[ " in
      match row_loop numTubes i (row_base neighbors i) 0 oss true with
      | (t, None) => (t, None)
      | (t, Some oss) =>
          let oss := oss <<< " ]" in
          let oss := if i <? size_sub numTubes 1 then oss <<< ", " else oss in
          let '(t', r) := tubes_loop neighbors numTubes todo' (i + 1) oss in
          (t ++ t', r)
      end
  end.

(** The run of [neighborsToJsonArray]: its trace and, when every access
    is defined, the string it returns. *)
Definition neighborsToJsonArray_run (neighbors : list Z) (numTubes : Z)
  : trace * option string :=
  let '(t, r) := tubes_loop neighbors numTubes (Z.to_nat numTubes) 0 "[ " in
  (t, match r with None => None | Some oss => Some (oss <<< " ]") end).

Definition neighborsToJsonArray (neighbors : list Z) (numTubes : Z)
  : option string :=
  snd (neighborsToJsonArray_run neighbors numTubes).

End Neighbors.

(** ** [writeDataSetToJson] and [main] *)

(** The arrays of [WhippleCams.h] that [main] passes on.  The header is
    not part of the program text, so its tables are parameters. *)
Record WhippleCams (float : Type) : Type := {
  WC109Xcoord : list float; WC109Ycoord : list float;
  WC109Radius : list float; WC109Neighbors : list Z;
  WC151Xcoord : list float; WC151Ycoord : list float;
  WC151Radius : list float; WC151Neighbors : list Z;
  WC331Xcoord : list float; WC331Ycoord : list float;
  WC331Radius : list float; WC331Neighbors : list Z;
  WC490Xcoord : list float; WC490Ycoord : list float;
  WC490Radius : list float; WC490Neighbors : list Z
}.

Arguments WC109Xcoord {float}.
Arguments WC109Ycoord {float}.
Arguments WC109Radius {float}.
Arguments WC109Neighbors {float}.
Arguments WC151Xcoord {float}.
Arguments WC151Ycoord {float}.
Arguments WC151Radius {float}.
Arguments WC151Neighbors {float}.
Arguments WC331Xcoord {float}.
Arguments WC331Ycoord {float}.
Arguments WC331Radius {float}.
Arguments WC331Neighbors {float}.
Arguments WC490Xcoord {float}.
Arguments WC490Ycoord {float}.
Arguments WC490Radius {float}.
Arguments WC490Neighbors {float}.

(** What [main] sees of its environment: the files, whether a path can be
    opened for writing, what a file ends up holding when a text is written
    to it (the text itself when the write goes through), and the text sent
    to [std::cerr]. *)
Record World : Type := {
  file_content : string -> option string;
  openable : string -> bool;
  write_outcome : string -> string -> string;
  cerr : string
}.

Definition write_file (w : World) (path text : string) : World :=
  {| file_content := fun p => if String.eqb p path then Some text
                              else file_content w p;
     openable := openable w;
     write_outcome := write_outcome w;
     cerr := cerr w |}.

Notation "x <- e ;; k" :=
  (match e with None => None | Some x => k end)
  (at level 61, e at next level, right associativity).

Section Program.
Variable NUM_NEIGHBORS : Z.
(** The element type of the coordinate tables ([float]) and the text
    [operator<<] gives it. *)
Context {float : Type} `{Insertable float}.

Definition writeDataSetToJson (json : string) (nadc : Z)
           (posX posY radius : list float) (neighbors : list Z)
           (npix : Z) (more : bool) : option string :=
  let json := json <<< "  " <<< dquote <<< put nadc <<< dquote <<< ": {" <<< nl in
  let json := json <<< "    " <<< dquote <<< "nadc" <<< dquote <<< ": "
                   <<< put nadc <<< "," <<< nl in
  let json := json <<< "    " <<< dquote <<< "npix" <<< dquote <<< ": "
                   <<< put npix <<< "," <<< nl in
  x <- arrayToJsonArray posX npix ;;
  let json := json <<< "    " <<< dquote <<< "x" <<< dquote <<< ": "
                   <<< x <<< "," <<< nl in
  y <- arrayToJsonArray posY npix ;;
  let json := json <<< "    " <<< dquote <<< "y" <<< dquote <<< ": "
                   <<< y <<< "," <<< nl in
  r <- arrayToJsonArray radius npix ;;
  let json := json <<< "    " <<< dquote <<< "r" <<< dquote <<< ": "
                   <<< r <<< "," <<< nl in
  n <- neighborsToJsonArray NUM_NEIGHBORS neighbors npix ;;
  let json := json <<< "    " <<< dquote <<< "neighbors" <<< dquote <<< ": "
                   <<< n <<< nl in
  Some (if more then json <<< "  }," <<< nl else json <<< "  }" <<< nl).

Definition header_line : string :=
  "  "
  <<< dquote
  <<< "header"
  <<< dquote
  <<< ": "
  <<< dquote
  <<< "whipple_cams.json - Stephen Fegan - 2024-12-26\n\nPixel positions, radii and neighbor map for Whipple cameras, extracted from\nWhippleCams.h, a part of ChiLA. The cameras are keyed by the number of ADC\nchannels read out, which is larger than the number of pixels, each ADC having\ntwelve channels.\n\nThis file is part of "
  <<< bslash
  <<< dquote
  <<< "pyfzreader"
  <<< bslash
  <<< dquote
  <<< ".\n\n"
  <<< bslash
  <<< dquote
  <<< "pyfzreader"
  <<< bslash
  <<< dquote
  <<< " is free software: you can redistribute it and/or modify it under\nthe terms of the GNU General Public License version 2 or later, as published by\nthe Free Software Foundation.\n\n"
  <<< bslash
  <<< dquote
  <<< "pyfzreader"
  <<< bslash
  <<< dquote
  <<< " is distributed in the hope that it will be useful, but WITHOUT ANY\nWARRANTY; without even the implied warranty of MERCHANTABILITY or FITNESS FOR\nA PARTICULAR PURPOSE.  See the GNU General Public License for more details.\n"
  <<< dquote
  <<< ","
  <<< nl.

(** The text [main] accumulates in [json]. *)
Definition main_json (cams : WhippleCams float) : option string :=
  let json := "" <<< "{" <<< nl in
  let json := json <<< header_line in
  json <- writeDataSetToJson json 120 (WC109Xcoord cams) (WC109Ycoord cams)
            (WC109Radius cams) (WC109Neighbors cams) 109 true ;;
  json <- writeDataSetToJson json 156 (WC151Xcoord cams) (WC151Ycoord cams)
            (WC151Radius cams) (WC151Neighbors cams) 151 true ;;
  json <- writeDataSetToJson json 336 (WC331Xcoord cams) (WC331Ycoord cams)
            (WC331Radius cams) (WC331Neighbors cams) 331 true ;;
  json <- writeDataSetToJson json 492 (WC490Xcoord cams) (WC490Ycoord cams)
            (WC490Radius cams) (WC490Neighbors cams) 490 true ;;
  json <- writeDataSetToJson json 384 (WC490Xcoord cams) (WC490Ycoord cams)
            (WC490Radius cams) (WC490Neighbors cams) 379 false ;;
  Some (json <<< "}" <<< nl).



End Program.



(** ** Observations on a run *)

(** The values streamed for pixel [i], in order. *)
Fixpoint emitted (t : trace) (i : Z) : list Z :=
  match t with
  | [] => []
  | Emit i' v :: t' => if i' =? i then v :: emitted t' i else emitted t' i
  | Read _ _ :: t' => emitted t' i
  end.

(** The text of one neighbour list and of a sequence of them, as
    [neighborsToJsonArray] lays them out. *)
Definition render_row (vs : list Z) : string :=
  "[ " <<< String.concat ", " (map put vs) <<< " ]".

Definition render_neighbors (rows : list (list Z)) : string :=
  "[ " <<< String.concat ", " (map render_row rows) <<< " ]".

(** The pixel indices [0, ..., n-1]. *)
Definition pixels (n : Z) : list Z := map Z.of_nat (seq 0 (Z.to_nat n)).

(** ** The neighbour list as the specification words it *)

Section SpecWords.
Variable NUM_NEIGHBORS : Z.

(** Row [i] of the table: its [NUM_NEIGHBORS] cells. *)
Definition row (neighbors : list Z) (i : Z) : list Z :=
  firstn (Z.to_nat NUM_NEIGHBORS) (row_base NUM_NEIGHBORS neighbors i).

(** Scanning left to right, stopping at the first sentinel. *)
Fixpoint scan_row (cells : list Z) : list Z :=
  match cells with
  | [] => []
  | v :: rest => if v =? -1 then [] else v :: scan_row rest
  end.

(** ... and keeping the scanned values [v] with [v < pixel_count]. *)
Definition spec_neighbor_list (cells : list Z) (pixel_count : Z) : list Z :=
  filter (fun v => v <? pixel_count) (scan_row cells).

Definition has_sentinel (cells : list Z) : bool :=
  existsb (fun v => v =? -1) cells.

(** Each of the first [npix] rows holds a sentinel within its width. *)
Definition sentinel_rows (neighbors : list Z) (npix : Z) : bool :=
  forallb (fun i => has_sentinel (row neighbors i)) (pixels npix).

(** Each of the first [npix] rows holds pixel indices (which are not
    negative) up to a sentinel within its width. *)
Definition index_rows (neighbors : list Z) (npix : Z) : bool :=
  forallb (fun i => has_sentinel (row neighbors i)
                    && forallb (fun v => 0 <=? v) (scan_row (row neighbors i)))
          (pixels npix).

End SpecWords.

(** Every cell of the table holds a value of type [int]. *)
Definition int_table (neighbors : list Z) : Prop :=
  forallb is_intb neighbors = true.

(** ** The inner loop, seen from outside *)

(** The values the inner loop steps over when started at [neighbors[i][j]]
    with [cells] the storage from there on: it goes on up to the first
    sentinel, the end of the storage or the last value [j] can take. *)
Fixpoint scanned (cells : list Z) (j : Z) : list Z :=
  match cells with
  | [] => []
  | v :: rest =>
      if v =? -1 then []
      else v :: (if j =? INT_MAX then [] else scanned rest (j + 1))
  end.

(** Whether the inner loop fails. *)
Fixpoint row_faults (cells : list Z) (j : Z) : bool :=
  match cells with
  | [] => true
  | v :: rest =>
      if v =? -1 then false
      else if j =? INT_MAX then true
      else row_faults rest (j + 1)
  end.

(** The scanned values that pass the range test against [numTubes]. *)
Definition row_emitted (numTubes : Z) (cells : list Z) (j : Z) : list Z :=
  filter (fun v => negb (to_size_t v >=? numTubes)) (scanned cells j).

(** The text of values that follow an earlier one: each is preceded by a
    separator. *)
Fixpoint tail_text (vs : list Z) : string :=
  match vs with
  | [] => ""
  | v :: vs' => ", " <<< put v <<< tail_text vs'
  end.

Definition row_text (first : bool) (vs : list Z) : string :=
  if first then String.concat ", " (map put vs) else tail_text vs.

(** Whether the outer loop, started at row [i] with [todo] rows to go, gets
    to row [k]: no earlier row makes the inner loop fail. *)
Fixpoint reaches (NUM_NEIGHBORS : Z) (neighbors : list Z) (todo : nat)
         (i k : Z) : bool :=
  match todo with
  | O => false
  | S todo' =>
      if i =? k then true
      else if row_faults (row_base NUM_NEIGHBORS neighbors i) 0 then false
      else reaches NUM_NEIGHBORS neighbors todo' (i + 1) k
  end.

(** ** The layout of an entry *)

(** The line that opens the entry of a camera: its key, quoted. *)
Definition entry_key (nadc : Z) : string :=
  "  " <<< dquote <<< put nadc <<< dquote <<< ": {" <<< nl.

Definition field (name value : string) : string :=
  "    " <<< dquote <<< name <<< dquote <<< ": " <<< value.

(** The text [writeDataSetToJson] adds to [json], given the texts of the
    four arrays. *)
Definition entry_text (nadc npix : Z) (x y r n : string) (more : bool) : string :=
  entry_key nadc
  <<< field "nadc" (put nadc) <<< "," <<< nl
  <<< field "npix" (put npix) <<< "," <<< nl
  <<< field "x" x <<< "," <<< nl
  <<< field "y" y <<< "," <<< nl
  <<< field "r" r <<< "," <<< nl
  <<< field "neighbors" n <<< nl
  <<< (if more then "  }," else "  }") <<< nl.

(** How often [pat] occurs in [text]. *)
Fixpoint occurrences (pat text : string) : nat :=
  ((if String.prefix pat text then 1 else 0)
   + match text with
     | EmptyString => 0
     | String _ rest => occurrences pat rest
     end)%nat.

(** ** Sample tables *)

Module Samples.

(** Rows of width 3.  Five rows, of which a camera of three pixels uses the
    first three; row 0 lists pixel 4, which such a camera does not have. *)
Definition five_rows : list Z :=
  [1; 4; -1;   0; 2; -1;   1; 3; -1;   2; 4; -1;   3; 0; -1].

(** Two rows of width 3, the first of them without a sentinel. *)
Definition unterminated : list Z := [1; 0; 1;   0; -1; -1].

(** Two rows of width 3, the first of them with the entry -2. *)
Definition with_negative : list Z := [-2; 1; -1;   0; -1; -1].

(** Coordinates that are whole numbers, which the stream writes like
    integers. *)
Definition whole (n : nat) : list Z := map Z.of_nat (seq 0 n).

(** Two records with the key 384, written one after the other. *)
Definition collision_doc : option string :=
  json <- writeDataSetToJson 3 "" 384 [1] [2] [3] [-1; -1; -1] 1 true ;;
  writeDataSetToJson 3 json 384 [4] [5] [6] [-1; -1; -1] 1 false.

(** Pixels on a ring, each next to its successor and its predecessor;
    rows of width 3. *)
Definition ring (n : nat) : list Z :=
  flat_map (fun k => [Z.of_nat ((k + 1) mod n); Z.of_nat ((k + n - 1) mod n); -1])
           (seq 0 n).

Definition ring_cams : WhippleCams Z :=
  {| WC109Xcoord := whole 109; WC109Ycoord := whole 109;
     WC109Radius := whole 109; WC109Neighbors := ring 109;
     WC151Xcoord := whole 151; WC151Ycoord := whole 151;
     WC151Radius := whole 151; WC151Neighbors := ring 151;
     WC331Xcoord := whole 331; WC331Ycoord := whole 331;
     WC331Radius := whole 331; WC331Neighbors := ring 331;
     WC490Xcoord := whole 490; WC490Ycoord := whole 490;
     WC490Radius := whole 490; WC490Neighbors := ring 490 |}.

(** A world without files, and one in which the output file exists; in
    both every write goes through. *)
Definition fresh_world : World :=
  {| file_content := fun _ => None;
     openable := fun _ => true;
     write_outcome := fun _ text => text;
     cerr := "" |}.

Definition used_world : World := write_file fresh_world "whipple_cams.json" "{}".

End Samples.

(** ** The cells a run evaluates *)

(** The columns [j] of the cells [neighbors[i][j]] evaluated in row [i], in
    the order of their evaluation. *)
Fixpoint reads (t : trace) (i : Z) : list Z :=
  match t with
  | [] => []
  | Read i' j :: t' => if i' =? i then j :: reads t' i else reads t' i
  | Emit _ _ :: t' => reads t' i
  end.

(** The columns [j, j + 1, ..., j + n - 1]. *)
Definition columns (j : Z) (n : nat) : list Z :=
  map (fun d => j + Z.of_nat d) (seq 0 n).

(** The columns the inner loop evaluates when started at [neighbors[i][j]]
    on the storage [cells]. *)
Fixpoint row_reads (cells : list Z) (j : Z) : list Z :=
  match cells with
  | [] => [j]
  | v :: rest =>
      j :: (if v =? -1 then []
            else if j =? INT_MAX then []
            else row_reads rest (j + 1))
  end.

(** ** [operator<<] on a [float] *)

(** The coordinate tables hold [float]s and [arrayToJsonArray] inserts them
    with [oss << array[i]] into a stream whose format the program never
    changes.  The insertion is not part of the source; it is modelled here
    from the documentation of the C++ library: with the default flags and
    the default precision 6 a floating-point value is converted as
    [printf] does with [%g], that is, rounded to six significant decimal
    digits, written in fixed notation when the decimal exponent [X] of
    the rounded value has [-4 <= X < 6] and in scientific notation
    otherwise, with the trailing zeros of the fraction (and a decimal
    point left without fraction) removed.  A [float] is a [spec_float] of
    the standard library that is valid for precision 24 and exponents up
    to 128. *)

Module FloatText.

Definition is_float (x : spec_float) : bool := valid_binary 24 128 x.

(** The value of a finite float with mantissa [m] and exponent [e], as the
    fraction [num / den]. *)
Definition ratio (m : positive) (e : Z) : Z * Z :=
  if 0 <=? e then (Zpos m * 2 ^ e, 1) else (Zpos m, 2 ^ (- e)).

(** [a / b] rounded to the nearest integer, a tie to the even one. *)
Definition round_div (a b : Z) : Z :=
  let q := a / b in
  let r := a mod b in
  if 2 * r <? b then q
  else if b <? 2 * r then q + 1
  else if Z.even q then q else q + 1.

(** The number of decimal digits of [n >= 1], less one. *)
Fixpoint log10_loop (fuel : nat) (n : Z) : Z :=
  match fuel with
  | O => 0
  | S fuel' => if n <? 10 then 0 else 1 + log10_loop fuel' (n / 10)
  end.

Definition log10 (n : Z) : Z := log10_loop (S (Z.to_nat (Z.log2 n))) n.

(** The decimal exponent of [num / den]: the [X] with
    [10^X <= num / den < 10^(X+1)]. *)
Definition decimal_exponent (num den : Z) : Z :=
  if den <=? num then log10 (num / den)
  else
    let k := log10 (den / num) in
    if den <=? num * 10 ^ k then - k else - (k + 1).

(** Multiplying by [10^(5 - X)], as a fraction. *)
Definition scale (X : Z) : Z * Z :=
  if X <=? 5 then (10 ^ (5 - X), 1) else (1, 10 ^ (X - 5)).

(** The six significant digits [D] and the decimal exponent [X] of the
    rounded value [D * 10^(X - 5)]; rounding up to [10^6] moves on to
    the next exponent. *)
Definition significant6 (num den : Z) : Z * Z :=
  let X := decimal_exponent num den in
  let '(a, b) := scale X in
  let D := round_div (num * a) (den * b) in
  if D =? 1000000 then (100000, X + 1) else (D, X).

(** [D * 10^(X - 5)] lies within half a unit of its last digit of
    [num / den]. *)
Definition within_half_unit (num den D X : Z) : Prop :=
  let '(a, b) := scale X in
  Z.abs (2 * (num * a) - 2 * D * (den * b)) <= den * b.

Fixpoint strip_zeros (s : string) : string :=
  match s with
  | EmptyString => EmptyString
  | String c rest =>
      let rest' := strip_zeros rest in
      if String.eqb rest' "" && Ascii.eqb c "0" then EmptyString
      else String c rest'
  end.

(** The fraction behind the integer part: nothing when all its digits
    are zeros. *)
Definition fraction (digits : string) : string :=
  let f := strip_zeros digits in
  if String.eqb f "" then "" else "." <<< f.

Fixpoint zeros (n : nat) : string :=
  match n with
  | O => ""
  | S n' => "0" <<< zeros n'
  end.

(** The exponent of the scientific notation: a sign and at least two
    digits. *)
Definition exponent_text (X : Z) : string :=
  (if X <? 0 then "e-" else "e+")
  <<< (if Z.abs X <? 10 then "0" else "")
  <<< put (Z.abs X).

(** The text of [D * 10^(X - 5)] for six digits [D]. *)
Definition general_text (D X : Z) : string :=
  let digits := put D in
  if (-4 <=? X) && (X <? 6) then
    if 0 <=? X then
      substring 0 (Z.to_nat (X + 1)) digits
      <<< fraction (substring (Z.to_nat (X + 1)) (Z.to_nat (5 - X)) digits)
    else "0" <<< fraction (zeros (Z.to_nat (- X - 1)) <<< digits)
  else
    substring 0 1 digits <<< fraction (substring 1 5 digits)
    <<< exponent_text X.

Definition put_float (x : spec_float) : string :=
  match x with
  | S754_zero s => if s then "-0" else "0"
  | S754_infinity s => if s then "-inf" else "inf"
  | S754_nan => "nan"
  | S754_finite s m e =>
      let '(num, den) := ratio m e in
      let '(D, X) := significant6 num den in
      (if s then "-" else "") <<< general_text D X
  end.

End FloatText.

#[export] Instance put_float32 : Insertable spec_float := FloatText.put_float.

(** ** The tables in memory *)



Definition is_some {A : Type} (o : option A) : bool :=
  match o with Some _ => true | None => false end.


Module FloatSamples.

(** [1.23456789f]: the float next to 1.23456789, and the float that
    follows it. *)
Definition f_1_23456789 : spec_float := S754_finite false 10356299 (-23).
Definition f_next : spec_float := S754_finite false 10356300 (-23).

(** [16777217.0f], which as a float is 16777216. *)
Definition f_16777217 : spec_float := S754_finite false 8388608 1.

End FloatSamples.

Module MemorySamples.




End MemorySamples.

(** * Properties *)

(** ** Strings *)

Lemma append_assoc (a b c : string) : a <<< b <<< c = a <<< (b <<< c).
Proof. induction a as [|ch a IH]; simpl; [reflexivity | now rewrite IH]. Qed.

Lemma append_nil_r (a : string) : a <<< "" = a.
Proof. induction a as [|ch a IH]; simpl; [reflexivity | now rewrite IH]. Qed.

Lemma concat_cons2 (sep x y : string) (l : list string) :
  String.concat sep (x :: y :: l) = x <<< sep <<< String.concat sep (y :: l).
Proof. simpl. now rewrite append_assoc. Qed.

(** ** Machine arithmetic *)

Lemma size_sub_1 (n : Z) : 1 <= n -> is_size_t n -> size_sub n 1 = n - 1.
Proof.
  unfold is_size_t, size_sub, SIZE_MAX. intros H1 H2.
  apply Z.mod_small. lia.
Qed.

Lemma to_size_t_nonneg (v : Z) : 0 <= v -> is_int v -> to_size_t v = v.
Proof.
  unfold is_int, to_size_t, INT_MAX. intros H0 [_ H1].
  apply Z.mod_small. lia.
Qed.

Lemma to_size_t_neg (v : Z) :
  v < 0 -> is_int v -> to_size_t v = v + 2 ^ 64 /\ SIZE_MAX - INT_MAX <= to_size_t v.
Proof.
  unfold is_int, to_size_t, INT_MIN, INT_MAX, SIZE_MAX. intros H0 [H1 _].
  assert (E : v mod 2 ^ 64 = v + 2 ^ 64).
  { symmetry. apply (Z.mod_unique v (2 ^ 64) (-1) (v + 2 ^ 64)); lia. }
  rewrite E. lia.
Qed.

Lemma is_intb_spec (v : Z) : is_intb v = true <-> is_int v.
Proof. unfold is_intb, is_int. rewrite andb_true_iff, !Z.leb_le. tauto. Qed.

Lemma int_table_In (neighbors : list Z) (v : Z) :
  int_table neighbors -> In v neighbors -> is_int v.
Proof.
  unfold int_table. rewrite forallb_forall. intros Hall Hin.
  apply is_intb_spec, Hall, Hin.
Qed.

(** The range test of the inner loop, on a value of type [int], for a
    pixel count that leaves room for the images of the negative [int]s. *)
Lemma range_test (v n : Z) :
  is_int v -> 0 <= n <= SIZE_MAX - INT_MAX ->
  (to_size_t v >=? n) = negb ((0 <=? v) && (v <? n)).
Proof.
  intros Hv Hn. destruct (Z_lt_le_dec v 0) as [Hneg | Hpos].
  - destruct (to_size_t_neg v Hneg Hv) as [_ Hbig].
    replace (0 <=? v) with false by (symmetry; apply Z.leb_gt; lia).
    simpl. apply Z.geb_le. lia.
  - rewrite (to_size_t_nonneg v Hpos Hv).
    replace (0 <=? v) with true by (symmetry; apply Z.leb_le; lia).
    simpl. rewrite Z.geb_leb. apply Z.leb_antisym.
Qed.

(** ** [arrayToJsonArray] streams the first [npix] elements *)

Section ArrayFacts.
Context {T : Type} `{Insertable T}.

Lemma array_loop_text (array : list T) (npix : Z) :
  is_size_t npix ->
  forall (todo k : nat) (oss : string),
    Z.of_nat (k + todo) = npix ->
    (k + todo <= List.length array)%nat ->
    array_loop array npix todo (Z.of_nat k) oss
    = Some (oss <<< String.concat ", " (map put (firstn todo (skipn k array)))).
Proof.
  intros Hn todo. induction todo as [|todo IH]; intros k oss Hk Hlen.
  - simpl. now rewrite append_nil_r.
  - cbn [array_loop]. rewrite Nat2Z.id.
    destruct (nth_error array k) as [a|] eqn:Ea.
    2:{ apply nth_error_None in Ea. lia. }
    assert (Es : skipn k array = a :: skipn (S k) array).
    { rewrite <- (firstn_skipn k array) in Ea at 1.
      rewrite nth_error_app2 in Ea by (rewrite length_firstn; lia).
      rewrite length_firstn in Ea.
      replace (k - Nat.min k (List.length array))%nat with 0%nat in Ea by lia.
      destruct (skipn k array) as [|b tl] eqn:Eb; [discriminate|].
      simpl in Ea. injection Ea as ->.
      f_equal. change (S k) with (1 + k)%nat. rewrite <- skipn_skipn.
      now rewrite Eb. }
    rewrite Es. cbn [firstn map].
    replace (Z.of_nat k + 1) with (Z.of_nat (S k)) by lia.
    rewrite IH by lia.
    rewrite size_sub_1 by (unfold is_size_t in *; lia).
    destruct todo as [|todo].
    + replace (Z.of_nat k <? npix - 1) with false
        by (symmetry; apply Z.ltb_ge; lia).
      simpl. now rewrite !append_nil_r.
    + replace (Z.of_nat k <? npix - 1) with true
        by (symmetry; apply Z.ltb_lt; lia).
      destruct (skipn (S k) array) as [|b tl] eqn:Eb.
      { exfalso. apply (f_equal (@List.length T)) in Eb.
        rewrite length_skipn in Eb. simpl in Eb. lia. }
      cbn [firstn map]. rewrite concat_cons2.
      now rewrite !append_assoc.
Qed.

(** With enough elements in the array, the result is the text of its
    first [npix] elements. *)
Lemma arrayToJsonArray_text (array : list T) (npix : Z) :
  is_size_t npix -> npix <= Z.of_nat (List.length array) ->
  arrayToJsonArray array npix = Some (render_array (firstn (Z.to_nat npix) array)).
Proof.
  intros Hn Hlen. unfold arrayToJsonArray, render_array.
  assert (H0 : 0 <= npix) by (unfold is_size_t in Hn; lia).
  change 0 with (Z.of_nat 0).
  rewrite (array_loop_text array npix Hn (Z.to_nat npix) 0) by lia.
  reflexivity.
Qed.

End ArrayFacts.

(** ** The inner loop *)

Lemma concat_tail_text (v : Z) (vs : list Z) :
  String.concat ", " (map put (v :: vs)) = put v <<< tail_text vs.
Proof.
  revert v. induction vs as [|w vs IH]; intros v.
  - simpl. now rewrite append_nil_r.
  - cbn [map]. rewrite concat_cons2. cbn [map] in IH. rewrite IH.
    cbn [tail_text]. now rewrite !append_assoc.
Qed.

Lemma row_text_step (first : bool) (oss : string) (v : Z) (vs : list Z) :
  (if first then oss else oss <<< ", ") <<< put v <<< row_text false vs
  = oss <<< row_text first (v :: vs).
Proof.
  destruct first; cbn [row_text].
  - rewrite concat_tail_text. now rewrite append_assoc.
  - cbn [tail_text]. now rewrite !append_assoc.
Qed.

(** What a run of the inner loop streams, returns and reads. *)
Lemma row_loop_spec (n i : Z) :
  forall (cells : list Z) (j : Z) (oss : string) (first : bool),
    (forall k, emitted (fst (row_loop n i cells j oss first)) k
               = if i =? k then row_emitted n cells j else [])
    /\ snd (row_loop n i cells j oss first)
       = (if row_faults cells j then None
          else Some (oss <<< row_text first (row_emitted n cells j)))
    /\ (forall i' j', In (Read i' j') (fst (row_loop n i cells j oss first)) ->
          i' = i /\ j <= j'
          /\ forall s, nth_error cells s = Some (-1) -> j' <= j + Z.of_nat s).
Proof.
  assert (Hone : forall (j : Z) (es : list event) i' j',
             In (Read i' j') (Read i j :: es) ->
             (forall e, In e es -> exists v, e = Emit i v) ->
             i' = i /\ j' = j).
  { intros j es i' j' [E|Hin] Hes; [now inversion E|].
    destruct (Hes _ Hin) as [v Hv]. discriminate. }
  induction cells as [|v rest IH]; intros j oss first.
  - cbn. split; [|split].
    + intros k. now destruct (i =? k).
    + reflexivity.
    + intros i' j' Hin. destruct (Hone j [] i' j' Hin) as [-> ->].
      { intros e []. }
      split; [reflexivity|]. split; [lia|]. intros s Hs. now destruct s.
  - unfold row_emitted. cbn [row_loop scanned row_faults].
    destruct (v =? -1) eqn:Ev.
    { cbn. split; [|split].
      + intros k. now destruct (i =? k).
      + destruct first; cbn; now rewrite ?append_nil_r.
      + intros i' j' Hin. destruct (Hone j [] i' j' Hin) as [-> ->].
        { intros e []. }
        split; [reflexivity|]. split; lia. }
    assert (Hsent : forall s, nth_error (v :: rest) s = Some (-1) ->
                              exists s', s = S s' /\ nth_error rest s' = Some (-1)).
    { intros [|s'] Hs; [|now exists s'].
      simpl in Hs. injection Hs as ->. discriminate. }
    cbn [filter].
    destruct (to_size_t v >=? n) eqn:Er; cbn [negb];
      destruct (j =? INT_MAX) eqn:Ej.
    + cbn. split; [|split].
      * intros k. now destruct (i =? k).
      * reflexivity.
      * intros i' j' Hin. destruct (Hone j [] i' j' Hin) as [-> ->].
        { intros e []. }
        split; [reflexivity|]. split; lia.
    + specialize (IH (j + 1) oss first). unfold row_emitted in IH.
      destruct (row_loop n i rest (j + 1) oss first) as [t r].
      cbn [fst snd] in *. destruct IH as (IHe & IHr & IHread).
      split; [|split].
      * intros k. cbn [emitted]. apply IHe.
      * exact IHr.
      * intros i' j' [E|Hin].
        { inversion E; subst. split; [reflexivity|]. split; lia. }
        apply IHread in Hin. destruct Hin as (-> & Hj & Hle).
        split; [reflexivity|]. split; [lia|].
        intros s Hs. destruct (Hsent s Hs) as (s' & -> & Hs').
        specialize (Hle s' Hs'). lia.
    + cbn [fst snd emitted]. split; [|split].
      * intros k. destruct (i =? k); reflexivity.
      * reflexivity.
      * intros i' j' Hin. destruct (Hone j [Emit i v] i' j' Hin) as [-> ->].
        { intros e [<-|[]]. now exists v. }
        split; [reflexivity|]. split; lia.
    + specialize (IH (j + 1) ((if first then oss else oss <<< ", ") <<< put v) false).
      unfold row_emitted in IH.
      destruct (row_loop n i rest (j + 1) _ false) as [t r].
      cbn [fst snd] in *. destruct IH as (IHe & IHr & IHread).
      split; [|split].
      * intros k. cbn [emitted]. rewrite IHe. now destruct (i =? k).
      * rewrite IHr. destruct (row_faults rest (j + 1)); [reflexivity|].
        now rewrite row_text_step.
      * intros i' j' [E|[E|Hin]]; [| discriminate |].
        { inversion E; subst. split; [reflexivity|]. split; lia. }
        apply IHread in Hin. destruct Hin as (-> & Hj & Hle).
        split; [reflexivity|]. split; [lia|].
        intros s Hs. destruct (Hsent s Hs) as (s' & -> & Hs').
        specialize (Hle s' Hs'). lia.
Qed.

(** ** Traces *)

Lemma emitted_app (t t' : trace) (k : Z) :
  emitted (t ++ t') k = emitted t k ++ emitted t' k.
Proof.
  induction t as [|[i j|i v] t IH]; cbn [emitted app]; auto.
  destruct (i =? k); [now rewrite IH | exact IH].
Qed.

Lemma In_Emit_emitted (t : trace) (i v : Z) :
  In (Emit i v) t <-> In v (emitted t i).
Proof.
  induction t as [|[i' j|i' w] t IH]; cbn [emitted In].
  - tauto.
  - rewrite <- IH. split; [intros [E|Hin]; [discriminate | exact Hin] | auto].
  - destruct (i' =? i) eqn:Ei.
    + apply Z.eqb_eq in Ei. subst i'. cbn [In]. rewrite <- IH.
      split; intros [E|Hin]; auto; left; congruence.
    + apply Z.eqb_neq in Ei. rewrite <- IH.
      split; [intros [E|Hin]; [congruence | exact Hin] | auto].
Qed.

(** ** The outer loop *)

Section OuterLoop.
Variable NUM_NEIGHBORS : Z.
Variable neighbors : list Z.
Variable numTubes : Z.

Local Abbreviation base := (row_base NUM_NEIGHBORS neighbors).
Local Abbreviation tloop := (tubes_loop NUM_NEIGHBORS neighbors numTubes).
Local Abbreviation reach := (reaches NUM_NEIGHBORS neighbors).

Lemma reaches_range (todo : nat) (i k : Z) :
  reach todo i k = true -> i <= k < i + Z.of_nat todo.
Proof.
  revert i. induction todo as [|todo IH]; intros i; cbn [reach].
  - discriminate.
  - destruct (i =? k) eqn:E; [apply Z.eqb_eq in E; lia|].
    apply Z.eqb_neq in E.
    destruct (row_faults (base i) 0); [discriminate|].
    intros Hr. apply IH in Hr. lia.
Qed.

Lemma reaches_behind (todo : nat) (i k : Z) : k < i -> reach todo i k = false.
Proof.
  intros Hk. destruct (reach todo i k) eqn:E; [|reflexivity].
  apply reaches_range in E. lia.
Qed.

(** Whether row [k] is reached does not depend on how many rows lie
    beyond it. *)
Lemma reaches_more (todo todo' : nat) (i k : Z) :
  k < i + Z.of_nat todo -> k < i + Z.of_nat todo' ->
  reach todo i k = reach todo' i k.
Proof.
  revert todo' i. induction todo as [|todo IH]; intros todo' i H1 H2.
  - rewrite !reaches_behind by lia. reflexivity.
  - destruct todo' as [|todo'].
    + rewrite !reaches_behind by lia. reflexivity.
    + cbn [reach]. destruct (i =? k) eqn:E; [reflexivity|].
      destruct (row_faults (base i) 0); [reflexivity|].
      apply IH; lia.
Qed.

(** The values streamed for pixel [k] are those of the inner loop on row
    [k], when the run gets there. *)
Lemma tubes_loop_emitted (todo : nat) (i : Z) (oss : string) (k : Z) :
  emitted (fst (tloop todo i oss)) k
  = if reach todo i k then row_emitted numTubes (base k) 0 else [].
Proof.
  revert i oss. induction todo as [|todo IH]; intros i oss.
  - reflexivity.
  - cbn [tubes_loop reaches].
    destruct (row_loop_spec numTubes i (base i) 0 (oss <<< "[ ") true)
      as (He & Hr & _).
    destruct (row_loop numTubes i (base i) 0 (oss <<< "[ ") true) as [t r].
    cbn [fst snd] in He, Hr. specialize (He k).
    destruct (row_faults (base i) 0); subst r.
    + cbn [fst]. rewrite He. destruct (i =? k) eqn:E; [|reflexivity].
      apply Z.eqb_eq in E. now subst.
    + match goal with |- context [tubes_loop _ _ _ todo (i + 1) ?o] =>
        specialize (IH (i + 1) o);
        destruct (tubes_loop NUM_NEIGHBORS neighbors numTubes todo (i + 1) o)
          as [t' r'] end.
      cbn [fst] in *. rewrite emitted_app, He, IH.
      destruct (i =? k) eqn:E.
      * apply Z.eqb_eq in E. subst k.
        rewrite reaches_behind by lia. now rewrite app_nil_r.
      * reflexivity.
Qed.

(** The cells read in row [i'] lie between its start and its first
    sentinel. *)
Lemma tubes_loop_reads (todo : nat) (i : Z) (oss : string) (i' j' : Z) :
  In (Read i' j') (fst (tloop todo i oss)) ->
  0 <= j' /\ forall s, nth_error (base i') s = Some (-1) -> j' <= Z.of_nat s.
Proof.
  revert i oss. induction todo as [|todo IH]; intros i oss.
  - intros [].
  - cbn [tubes_loop].
    destruct (row_loop_spec numTubes i (base i) 0 (oss <<< "[ ") true)
      as (_ & _ & Hread).
    destruct (row_loop numTubes i (base i) 0 (oss <<< "[ ") true) as [t r].
    cbn [fst] in Hread.
    assert (Hrow : In (Read i' j') t ->
                   0 <= j' /\ forall s, nth_error (base i') s = Some (-1) ->
                                        j' <= Z.of_nat s).
    { intros Hin. apply Hread in Hin. destruct Hin as (-> & Hj & Hs).
      split; [exact Hj|]. intros s E. specialize (Hs s E). lia. }
    destruct r as [oss'|]; [|exact Hrow].
    match goal with |- context [tubes_loop _ _ _ todo (i + 1) ?o] =>
      specialize (IH (i + 1) o);
      destruct (tubes_loop NUM_NEIGHBORS neighbors numTubes todo (i + 1) o)
        as [t' r'] end.
    cbn [fst] in *. intros Hin. apply in_app_or in Hin.
    destruct Hin as [Hin|Hin]; auto.
Qed.

(** The text returned: the lists of the rows, each in brackets, separated
    by commas; none when some row makes the inner loop fail. *)
Lemma tubes_loop_text (todo k : nat) (oss : string) :
  is_size_t numTubes -> Z.of_nat (k + todo) = numTubes ->
  snd (tloop todo (Z.of_nat k) oss)
  = if existsb (fun r => row_faults (base r) 0) (map Z.of_nat (seq k todo))
    then None
    else Some (oss <<< String.concat ", "
                 (map (fun r => render_row (row_emitted numTubes (base r) 0))
                      (map Z.of_nat (seq k todo)))).
Proof.
  intros Hn. revert k oss. induction todo as [|todo IH]; intros k oss Hk.
  - cbn. now rewrite append_nil_r.
  - cbn [tubes_loop seq map existsb].
    destruct (row_loop_spec numTubes (Z.of_nat k) (base (Z.of_nat k)) 0
                            (oss <<< "[ ") true) as (_ & Hr & _).
    destruct (row_loop numTubes (Z.of_nat k) (base (Z.of_nat k)) 0
                       (oss <<< "[ ") true) as [t r].
    cbn [snd] in Hr. subst r.
    destruct (row_faults (base (Z.of_nat k)) 0); [reflexivity|].
    cbn [orb]. rewrite size_sub_1 by (unfold is_size_t in *; lia).
    replace (Z.of_nat k + 1) with (Z.of_nat (S k)) by lia.
    match goal with |- context [tubes_loop _ _ _ todo _ ?o] =>
      specialize (IH (S k) o);
      destruct (tubes_loop NUM_NEIGHBORS neighbors numTubes todo (Z.of_nat (S k)) o)
        as [t' r'] end.
    cbn [snd] in *. rewrite IH by lia. clear IH.
    destruct (existsb _ (map Z.of_nat (seq (S k) todo))); [reflexivity|].
    f_equal. cbn [row_text]. destruct todo as [|todo].
    + replace (Z.of_nat k <? numTubes - 1) with false
        by (symmetry; apply Z.ltb_ge; lia).
      cbn. unfold render_row. now rewrite !append_nil_r, !append_assoc.
    + replace (Z.of_nat k <? numTubes - 1) with true
        by (symmetry; apply Z.ltb_lt; lia).
      cbn [seq map]. rewrite concat_cons2. unfold render_row.
      now rewrite !append_assoc.
Qed.

End OuterLoop.

Lemma In_pixels (n r : Z) : In r (pixels n) <-> 0 <= r < n.
Proof.
  unfold pixels. rewrite in_map_iff. split.
  - intros (d & <- & Hd). apply in_seq in Hd. lia.
  - intros Hr. exists (Z.to_nat r). split; [lia|]. apply in_seq. lia.
Qed.

(** ** [neighborsToJsonArray] as a whole *)

Section NeighborsFacts.
Variable NUM_NEIGHBORS : Z.
Variable neighbors : list Z.
Variable numTubes : Z.

Local Abbreviation base := (row_base NUM_NEIGHBORS neighbors).
Local Abbreviation run := (neighborsToJsonArray_run NUM_NEIGHBORS neighbors numTubes).

Lemma run_trace :
  fst run = fst (tubes_loop NUM_NEIGHBORS neighbors numTubes (Z.to_nat numTubes) 0 "[ ").
Proof.
  unfold neighborsToJsonArray_run.
  now destruct (tubes_loop NUM_NEIGHBORS neighbors numTubes (Z.to_nat numTubes) 0 "[ ").
Qed.

Lemma run_emitted (k : Z) :
  emitted (fst run) k
  = if reaches NUM_NEIGHBORS neighbors (Z.to_nat numTubes) 0 k
    then row_emitted numTubes (base k) 0 else [].
Proof. rewrite run_trace. apply tubes_loop_emitted. Qed.

Lemma run_text :
  is_size_t numTubes ->
  neighborsToJsonArray NUM_NEIGHBORS neighbors numTubes
  = if existsb (fun r => row_faults (base r) 0) (pixels numTubes) then None
    else Some (render_neighbors
                 (map (fun r => row_emitted numTubes (base r) 0) (pixels numTubes))).
Proof.
  intros Hn. unfold neighborsToJsonArray, neighborsToJsonArray_run.
  pose proof (tubes_loop_text NUM_NEIGHBORS neighbors numTubes
                (Z.to_nat numTubes) 0 "[ " Hn) as Ht.
  change (Z.of_nat 0) with 0 in Ht.
  destruct (tubes_loop NUM_NEIGHBORS neighbors numTubes (Z.to_nat numTubes) 0 "[ ")
    as [t r].
  cbn [snd] in *. rewrite Ht by (unfold is_size_t in Hn; lia).
  unfold pixels. destruct (existsb _ _); [reflexivity|].
  unfold render_neighbors. now rewrite !map_map.
Qed.

(** A run that meets no failing row gets to every row. *)
Lemma reaches_all (todo : nat) (i k : Z) :
  (forall r, i <= r < k -> row_faults (base r) 0 = false) ->
  i <= k < i + Z.of_nat todo ->
  reaches NUM_NEIGHBORS neighbors todo i k = true.
Proof.
  revert i. induction todo as [|todo IH]; intros i Hok Hk; [lia|].
  cbn [reaches]. destruct (i =? k) eqn:E; [reflexivity|].
  apply Z.eqb_neq in E. rewrite Hok by lia. apply IH; [|lia].
  intros r Hr. apply Hok. lia.
Qed.

(** When a text is returned, it is the text of the lists streamed for
    the pixels [0, ..., numTubes - 1]. *)
Lemma run_text_emitted (text : string) :
  is_size_t numTubes ->
  neighborsToJsonArray NUM_NEIGHBORS neighbors numTubes = Some text ->
  text = render_neighbors (map (emitted (fst run)) (pixels numTubes)).
Proof.
  intros Hn. rewrite run_text by exact Hn.
  destruct (existsb _ (pixels numTubes)) eqn:Ef; [discriminate|].
  intros [= <-]. f_equal. apply map_ext_in. intros k Hk.
  rewrite run_emitted, reaches_all; [reflexivity | | apply In_pixels in Hk; lia].
  intros r Hr. destruct (row_faults (base r) 0) eqn:Er; [|reflexivity].
  assert (Hex : existsb (fun r => row_faults (base r) 0) (pixels numTubes) = true).
  { apply existsb_exists. exists r. split; [|exact Er].
    apply In_pixels. apply In_pixels in Hk. lia. }
  congruence.
Qed.

End NeighborsFacts.

(** ** Rows that hold a sentinel *)

Lemma scanned_sentinel (cells : list Z) :
  forall (w : nat) (j : Z),
    has_sentinel (firstn w cells) = true ->
    j + Z.of_nat w <= INT_MAX + 1 ->
    row_faults cells j = false /\ scanned cells j = scan_row (firstn w cells).
Proof.
  induction cells as [|v rest IH]; intros w j Hs Hj.
  - now destruct w.
  - destruct w as [|w]; [discriminate|].
    cbn [firstn has_sentinel existsb scan_row scanned row_faults] in *.
    destruct (v =? -1); [now split|]. cbn [orb] in Hs.
    assert (Hw : (1 <= w)%nat) by (destruct w; [discriminate | lia]).
    replace (j =? INT_MAX) with false by (symmetry; apply Z.eqb_neq; lia).
    destruct (IH w (j + 1) Hs) as [Hf Hsc]; [lia|].
    split; [exact Hf | now rewrite Hsc].
Qed.

Lemma scanned_incl (cells : list Z) (j v : Z) : In v (scanned cells j) -> In v cells.
Proof.
  revert j. induction cells as [|c rest IH]; intros j; cbn [scanned]; [tauto|].
  destruct (c =? -1); [intros []|]. intros [->|Hin]; [now left|].
  right. destruct (j =? INT_MAX); [destruct Hin | eapply IH, Hin].
Qed.

Lemma row_base_incl (NUM_NEIGHBORS : Z) (neighbors : list Z) (i v : Z) :
  In v (row_base NUM_NEIGHBORS neighbors i) -> In v neighbors.
Proof.
  unfold row_base. intros Hin.
  rewrite <- (firstn_skipn (Z.to_nat (i * NUM_NEIGHBORS)) neighbors).
  apply in_or_app. now right.
Qed.

Lemma has_sentinel_nth (cells : list Z) :
  forall w : nat,
    has_sentinel (firstn w cells) = true ->
    exists s : nat, (s < w)%nat /\ nth_error cells s = Some (-1).
Proof.
  induction cells as [|v rest IH]; intros w Hs.
  - now destruct w.
  - destruct w as [|w]; [discriminate|].
    cbn [firstn has_sentinel existsb] in Hs.
    destruct (v =? -1) eqn:Ev.
    + apply Z.eqb_eq in Ev. subst v. exists 0%nat. split; [lia | reflexivity].
    + destruct (IH w Hs) as (s & Hlt & Hnth).
      exists (S s). split; [lia | exact Hnth].
Qed.

Lemma existsb_none {A : Type} (f : A -> bool) (l : list A) :
  (forall a, In a l -> f a = false) -> existsb f l = false.
Proof.
  intros Hall. destruct (existsb f l) eqn:E; [|reflexivity].
  apply existsb_exists in E. destruct E as (a & Hin & Ha).
  rewrite (Hall a Hin) in Ha. discriminate.
Qed.

(** A table whose first [npix] rows each hold a sentinel: the run reaches
    every row, the inner loop scans exactly the row up to its sentinel,
    and a list is streamed for each pixel. *)
Section SentinelRows.
Variable NUM_NEIGHBORS : Z.
Variable neighbors : list Z.
Variable npix : Z.
Hypothesis width_int : NUM_NEIGHBORS <= INT_MAX.
Hypothesis rows_ok : sentinel_rows NUM_NEIGHBORS neighbors npix = true.

Local Abbreviation base := (row_base NUM_NEIGHBORS neighbors).
Local Abbreviation run := (neighborsToJsonArray_run NUM_NEIGHBORS neighbors npix).

Lemma sentinel_row_scan (r : Z) :
  0 <= r < npix ->
  row_faults (base r) 0 = false
  /\ scanned (base r) 0 = scan_row (row NUM_NEIGHBORS neighbors r).
Proof.
  intros Hr. unfold sentinel_rows in rows_ok.
  rewrite forallb_forall in rows_ok.
  apply scanned_sentinel.
  - apply rows_ok, In_pixels, Hr.
  - unfold INT_MAX in *. lia.
Qed.

Lemma sentinel_rows_emitted (i : Z) :
  0 <= i < npix ->
  emitted (fst run) i
  = filter (fun v => negb (to_size_t v >=? npix))
           (scan_row (row NUM_NEIGHBORS neighbors i)).
Proof.
  intros Hi. rewrite run_emitted, reaches_all.
  - unfold row_emitted. now rewrite (proj2 (sentinel_row_scan i Hi)).
  - intros r Hr. apply sentinel_row_scan. lia.
  - lia.
Qed.

Lemma sentinel_rows_text :
  is_size_t npix ->
  neighborsToJsonArray NUM_NEIGHBORS neighbors npix
  = Some (render_neighbors
            (map (fun r => filter (fun v => negb (to_size_t v >=? npix))
                                  (scan_row (row NUM_NEIGHBORS neighbors r)))
                 (pixels npix))).
Proof.
  intros Hn. rewrite run_text by exact Hn. rewrite existsb_none.
  - do 2 f_equal. apply map_ext_in. intros r Hr. apply In_pixels in Hr.
    unfold row_emitted. now rewrite (proj2 (sentinel_row_scan r Hr)).
  - intros r Hr. apply In_pixels in Hr. apply sentinel_row_scan, Hr.
Qed.

End SentinelRows.

Lemma scan_row_incl (cells : list Z) (v : Z) : In v (scan_row cells) -> In v cells.
Proof.
  induction cells as [|c rest IH]; cbn [scan_row]; [tauto|].
  destruct (c =? -1); [intros []|]. intros [->|Hin]; [now left | right; auto].
Qed.

Lemma row_incl (NUM_NEIGHBORS : Z) (neighbors : list Z) (i v : Z) :
  In v (row NUM_NEIGHBORS neighbors i) -> In v neighbors.
Proof.
  unfold row. intros Hin. apply (row_base_incl NUM_NEIGHBORS neighbors i).
  rewrite <- (firstn_skipn (Z.to_nat NUM_NEIGHBORS)
                (row_base NUM_NEIGHBORS neighbors i)).
  apply in_or_app. now left.
Qed.

Lemma index_rows_sentinel (NUM_NEIGHBORS : Z) (neighbors : list Z) (npix : Z) :
  index_rows NUM_NEIGHBORS neighbors npix = true ->
  sentinel_rows NUM_NEIGHBORS neighbors npix = true
  /\ forall r v, 0 <= r < npix ->
                 In v (scan_row (row NUM_NEIGHBORS neighbors r)) -> 0 <= v.
Proof.
  unfold index_rows, sentinel_rows. rewrite !forallb_forall. intros Hall. split.
  - intros r Hr. specialize (Hall r Hr). now apply andb_true_iff in Hall.
  - intros r v Hr Hv. specialize (Hall r (proj2 (In_pixels npix r) Hr)).
    apply andb_true_iff in Hall. destruct Hall as [_ Hall].
    rewrite forallb_forall in Hall. apply Z.leb_le, Hall, Hv.
Qed.

(** * The claims about the neighbour lists *)

(** C1.  For a camera record whose first [npix] rows hold pixel indices up
    to a sentinel within the row width, and every pixel index [i] in
    [0, npix): the list streamed for pixel [i] is the result of scanning
    row [i] left to right, stopping at the first -1, and keeping exactly
    the scanned values [v] with [v < npix], in their order and with their
    repetitions; the text returned is the text of these lists. *)
Theorem neighbor_list_is_filtered_scan
        (NUM_NEIGHBORS : Z) (neighbors : list Z) (npix i : Z) :
  NUM_NEIGHBORS <= INT_MAX ->
  is_size_t npix ->
  int_table neighbors ->
  index_rows NUM_NEIGHBORS neighbors npix = true ->
  0 <= i < npix ->
  emitted (fst (neighborsToJsonArray_run NUM_NEIGHBORS neighbors npix)) i
  = spec_neighbor_list (row NUM_NEIGHBORS neighbors i) npix
  /\ neighborsToJsonArray NUM_NEIGHBORS neighbors npix
     = Some (render_neighbors
               (map (fun r => spec_neighbor_list (row NUM_NEIGHBORS neighbors r) npix)
                    (pixels npix))).
Proof.
  intros Hw Hn Hint Hrows Hi.
  destruct (index_rows_sentinel _ _ _ Hrows) as [Hsent Hpos].
  assert (Hfilter : forall r, 0 <= r < npix ->
            filter (fun v => negb (to_size_t v >=? npix))
                   (scan_row (row NUM_NEIGHBORS neighbors r))
            = spec_neighbor_list (row NUM_NEIGHBORS neighbors r) npix).
  { intros r Hr. unfold spec_neighbor_list. apply filter_ext_in. intros v Hv.
    rewrite to_size_t_nonneg.
    - rewrite Z.geb_leb. symmetry. apply Z.ltb_antisym.
    - eapply Hpos; eassumption.
    - eapply int_table_In; [exact Hint|]. eapply row_incl, scan_row_incl, Hv. }
  split.
  - rewrite sentinel_rows_emitted by assumption. apply Hfilter, Hi.
  - rewrite sentinel_rows_text by assumption. do 2 f_equal.
    apply map_ext_in. intros r Hr. apply Hfilter, In_pixels, Hr.
Qed.

Lemma neighbor_list_is_filtered_scan_witness :
  emitted (fst (neighborsToJsonArray_run 3 Samples.five_rows 3)) 0
  = spec_neighbor_list (row 3 Samples.five_rows 0) 3
  /\ neighborsToJsonArray 3 Samples.five_rows 3
     = Some (render_neighbors
               (map (fun r => spec_neighbor_list (row 3 Samples.five_rows r) 3)
                    (pixels 3))).
Proof.
  apply (neighbor_list_is_filtered_scan 3 Samples.five_rows 3 0).
  - unfold INT_MAX. lia.
  - unfold is_size_t, SIZE_MAX. lia.
  - reflexivity.
  - reflexivity.
  - lia.
Defined.


(** C4.  Every integer in any list streamed by a run over a table of
    [int]s lies in [0, npix), and lists are streamed for pixels in
    [0, npix) only. *)
Theorem emitted_indices_in_range
        (NUM_NEIGHBORS : Z) (neighbors : list Z) (npix i v : Z) :
  int_table neighbors ->
  0 <= npix <= SIZE_MAX - INT_MAX ->
  In v (emitted (fst (neighborsToJsonArray_run NUM_NEIGHBORS neighbors npix)) i) ->
  0 <= v < npix /\ 0 <= i < npix.
Proof.
  intros Hint Hn Hin. rewrite run_emitted in Hin.
  destruct (reaches _ _ _ 0 i) eqn:Er; [|destruct Hin].
  apply reaches_range in Er. split; [|lia].
  unfold row_emitted in Hin. apply filter_In in Hin. destruct Hin as [Hv Ht].
  rewrite range_test in Ht; [|eapply int_table_In; [exact Hint|] | exact Hn].
  - rewrite negb_involutive in Ht. apply andb_true_iff in Ht.
    rewrite Z.leb_le, Z.ltb_lt in Ht. exact Ht.
  - eapply row_base_incl, scanned_incl, Hv.
Qed.

Lemma emitted_indices_in_range_witness : 0 <= 1 < 3 /\ 0 <= 0 < 3.
Proof.
  apply (emitted_indices_in_range 3 Samples.five_rows 3 0 1).
  - reflexivity.
  - unfold SIZE_MAX, INT_MAX. lia.
  - vm_compute. tauto.
Defined.

(** C9.  In a table of [int]s whose first [npix] rows hold a sentinel, a
    negative entry other than -1 that comes before the sentinel of row [i]
    converts to a [size_t] of at least [npix] and is left out of the list
    of pixel [i]; the scan goes on behind it, so that the list consists
    of the scanned values [v] with [0 <= v < npix]; no streamed index is
    negative. *)
Theorem negative_entries_dropped
        (NUM_NEIGHBORS : Z) (neighbors : list Z) (npix i : Z) :
  NUM_NEIGHBORS <= INT_MAX ->
  int_table neighbors ->
  0 <= npix <= SIZE_MAX - INT_MAX ->
  sentinel_rows NUM_NEIGHBORS neighbors npix = true ->
  0 <= i < npix ->
  let list_i := emitted (fst (neighborsToJsonArray_run NUM_NEIGHBORS neighbors npix)) i in
  (forall v, In v (scan_row (row NUM_NEIGHBORS neighbors i)) -> v < 0 ->
             npix <= to_size_t v /\ ~ In v list_i)
  /\ list_i = filter (fun v => (0 <=? v) && (v <? npix))
                     (scan_row (row NUM_NEIGHBORS neighbors i))
  /\ (forall v, In v list_i -> 0 <= v).
Proof.
  intros Hw Hint Hn Hrows Hi list_i.
  assert (Hlist : list_i = filter (fun v => (0 <=? v) && (v <? npix))
                                  (scan_row (row NUM_NEIGHBORS neighbors i))).
  { unfold list_i. rewrite sentinel_rows_emitted by assumption.
    apply filter_ext_in. intros v Hv. rewrite range_test.
    - apply negb_involutive.
    - eapply int_table_In; [exact Hint|]. eapply row_incl, scan_row_incl, Hv.
    - exact Hn. }
  assert (Hpos : forall v, In v list_i -> 0 <= v).
  { intros v Hv. rewrite Hlist in Hv. apply filter_In in Hv.
    destruct Hv as [_ Hv]. apply andb_true_iff in Hv. now apply Z.leb_le. }
  split; [|split; assumption].
  intros v Hv Hneg. split.
  - assert (Hiv : is_int v).
    { eapply int_table_In; [exact Hint|]. eapply row_incl, scan_row_incl, Hv. }
    destruct (to_size_t_neg v Hneg Hiv) as [_ Hbig]. lia.
  - intros Hin. apply Hpos in Hin. lia.
Qed.

Lemma negative_entries_dropped_witness :
  let list_0 := emitted (fst (neighborsToJsonArray_run 3 Samples.with_negative 2)) 0 in
  (forall v, In v (scan_row (row 3 Samples.with_negative 0)) -> v < 0 ->
             2 <= to_size_t v /\ ~ In v list_0)
  /\ list_0 = filter (fun v => (0 <=? v) && (v <? 2))
                     (scan_row (row 3 Samples.with_negative 0))
  /\ (forall v, In v list_0 -> 0 <= v).
Proof.
  apply (negative_entries_dropped 3 Samples.with_negative 2 0).
  - unfold INT_MAX. lia.
  - reflexivity.
  - unfold SIZE_MAX, INT_MAX. lia.
  - reflexivity.
  - lia.
Defined.

(** * The claims about the document *)

Section EntryFacts.
Variable NUM_NEIGHBORS : Z.
Context {float : Type} `{Insertable float}.

(** The text added for a record is laid out as [entry_text] says. *)
Lemma writeDataSetToJson_layout (json : string) (nadc : Z)
      (posX posY radius : list float) (neighbors : list Z) (npix : Z)
      (more : bool) (x y r n : string) :
  arrayToJsonArray posX npix = Some x ->
  arrayToJsonArray posY npix = Some y ->
  arrayToJsonArray radius npix = Some r ->
  neighborsToJsonArray NUM_NEIGHBORS neighbors npix = Some n ->
  writeDataSetToJson NUM_NEIGHBORS json nadc posX posY radius neighbors npix more
  = Some (json <<< entry_text nadc npix x y r n more).
Proof.
  intros Hx Hy Hr Hn. unfold writeDataSetToJson.
  rewrite Hx, Hy, Hr, Hn. unfold entry_text, entry_key, field.
  destruct more; now rewrite !append_assoc.
Qed.

(** What is added does not depend on what the stream holds already. *)
Lemma writeDataSetToJson_appends (json : string) (nadc : Z)
      (posX posY radius : list float) (neighbors : list Z) (npix : Z)
      (more : bool) :
  writeDataSetToJson NUM_NEIGHBORS json nadc posX posY radius neighbors npix more
  = match writeDataSetToJson NUM_NEIGHBORS "" nadc posX posY radius neighbors
                             npix more with
    | None => None
    | Some entry => Some (json <<< entry)
    end.
Proof.
  destruct (arrayToJsonArray posX npix) as [x|] eqn:Hx.
  2:{ unfold writeDataSetToJson. now rewrite Hx. }
  destruct (arrayToJsonArray posY npix) as [y|] eqn:Hy.
  2:{ unfold writeDataSetToJson. now rewrite Hx, Hy. }
  destruct (arrayToJsonArray radius npix) as [r|] eqn:Hr.
  2:{ unfold writeDataSetToJson. now rewrite Hx, Hy, Hr. }
  destruct (neighborsToJsonArray NUM_NEIGHBORS neighbors npix) as [n|] eqn:Hn.
  2:{ unfold writeDataSetToJson. now rewrite Hx, Hy, Hr, Hn. }
  rewrite (writeDataSetToJson_layout json nadc _ _ _ _ _ more x y r n) by assumption.
  rewrite (writeDataSetToJson_layout "" nadc _ _ _ _ _ more x y r n) by assumption.
  reflexivity.
Qed.

Lemma writeDataSetToJson_entry (nadc : Z)
      (posX posY radius : list float) (neighbors : list Z) (npix : Z)
      (more : bool) (entry : string) :
  writeDataSetToJson NUM_NEIGHBORS "" nadc posX posY radius neighbors npix more
  = Some entry ->
  exists rest, entry = entry_key nadc <<< rest.
Proof.
  intros He.
  destruct (arrayToJsonArray posX npix) as [x|] eqn:Hx.
  2:{ unfold writeDataSetToJson in He. now rewrite Hx in He. }
  destruct (arrayToJsonArray posY npix) as [y|] eqn:Hy.
  2:{ unfold writeDataSetToJson in He. now rewrite Hx, Hy in He. }
  destruct (arrayToJsonArray radius npix) as [r|] eqn:Hr.
  2:{ unfold writeDataSetToJson in He. now rewrite Hx, Hy, Hr in He. }
  destruct (neighborsToJsonArray NUM_NEIGHBORS neighbors npix) as [n|] eqn:Hn.
  2:{ unfold writeDataSetToJson in He. now rewrite Hx, Hy, Hr, Hn in He. }
  rewrite (writeDataSetToJson_layout "" nadc _ _ _ _ _ more x y r n) in He
    by assumption.
  injection He as <-. cbn [String.append]. unfold entry_text.
  eexists. rewrite !append_assoc. reflexivity.
Qed.

(** C3, as the code has it.  Nothing is checked and no error is raised.
    When each of the first [npix] rows holds a sentinel within the row
    width and the coordinate arrays hold [npix] elements, the record is
    written in full: the first [npix] coordinates and radii, and for each
    pixel the scanned values of its row that pass the range test. *)
Theorem terminated_rows_are_encoded (json : string) (nadc : Z)
        (posX posY radius : list float) (neighbors : list Z) (npix : Z)
        (more : bool) :
  NUM_NEIGHBORS <= INT_MAX ->
  is_size_t npix ->
  npix <= Z.of_nat (List.length posX) ->
  npix <= Z.of_nat (List.length posY) ->
  npix <= Z.of_nat (List.length radius) ->
  sentinel_rows NUM_NEIGHBORS neighbors npix = true ->
  writeDataSetToJson NUM_NEIGHBORS json nadc posX posY radius neighbors npix more
  = Some (json <<< entry_text nadc npix
            (render_array (firstn (Z.to_nat npix) posX))
            (render_array (firstn (Z.to_nat npix) posY))
            (render_array (firstn (Z.to_nat npix) radius))
            (render_neighbors
               (map (fun i => filter (fun v => negb (to_size_t v >=? npix))
                                     (scan_row (row NUM_NEIGHBORS neighbors i)))
                    (pixels npix)))
            more).
Proof.
  intros Hw Hn Hx Hy Hr Hrows.
  apply writeDataSetToJson_layout.
  - apply arrayToJsonArray_text; assumption.
  - apply arrayToJsonArray_text; assumption.
  - apply arrayToJsonArray_text; assumption.
  - apply sentinel_rows_text; assumption.
Qed.

(** C5, as the code has it.  Two records written one after the other
    under the same key both stay in the text: after what was there come
    the entry of the earlier record and then the entry of the later one,
    each opened by the key. *)
Theorem same_key_entries_both_written (json : string) (nadc : Z)
        (posX1 posY1 radius1 : list float) (neighbors1 : list Z) (npix1 : Z)
        (more1 : bool)
        (posX2 posY2 radius2 : list float) (neighbors2 : list Z) (npix2 : Z)
        (more2 : bool) (entry1 entry2 : string) :
  writeDataSetToJson NUM_NEIGHBORS "" nadc posX1 posY1 radius1 neighbors1
                     npix1 more1 = Some entry1 ->
  writeDataSetToJson NUM_NEIGHBORS "" nadc posX2 posY2 radius2 neighbors2
                     npix2 more2 = Some entry2 ->
  (json1 <- writeDataSetToJson NUM_NEIGHBORS json nadc posX1 posY1 radius1
              neighbors1 npix1 more1 ;;
   writeDataSetToJson NUM_NEIGHBORS json1 nadc posX2 posY2 radius2
              neighbors2 npix2 more2)
  = Some (json <<< entry1 <<< entry2)
  /\ (exists rest1, entry1 = entry_key nadc <<< rest1)
  /\ (exists rest2, entry2 = entry_key nadc <<< rest2).
Proof.
  intros H1 H2. split; [|split].
  - rewrite writeDataSetToJson_appends, H1.
    now rewrite writeDataSetToJson_appends, H2.
  - eapply writeDataSetToJson_entry, H1.
  - eapply writeDataSetToJson_entry, H2.
Qed.

(** C8.  With [npix = 0] the three coordinate arrays and the neighbour
    array are written as empty arrays and [npix] as 0, whatever the
    tables hold, even when they hold nothing; no cell of the neighbour
    table is evaluated and no value is streamed. *)
Theorem empty_camera (json : string) (nadc : Z)
        (posX posY radius : list float) (neighbors : list Z) (more : bool) :
  arrayToJsonArray posX 0 = Some (render_array [])
  /\ arrayToJsonArray posY 0 = Some (render_array [])
  /\ arrayToJsonArray radius 0 = Some (render_array [])
  /\ neighborsToJsonArray_run NUM_NEIGHBORS neighbors 0
     = ([], Some (render_neighbors []))
  /\ @render_array float _ [] = "[]"
  /\ render_neighbors [] = "[  ]"
  /\ writeDataSetToJson NUM_NEIGHBORS json nadc posX posY radius neighbors 0 more
     = Some (json <<< entry_text nadc 0 "[]" "[]" "[]" "[  ]" more)
  /\ field "npix" (put 0) = "    " <<< dquote <<< "npix" <<< dquote <<< ": 0".
Proof.
  repeat split; try reflexivity.
  now apply writeDataSetToJson_layout.
Qed.

End EntryFacts.

Lemma terminated_rows_are_encoded_witness :
  writeDataSetToJson 3 "" 12 (Samples.whole 5) (Samples.whole 5) (Samples.whole 5)
                     Samples.five_rows 3 false
  = Some ("" <<< entry_text 12 3
            (render_array (firstn (Z.to_nat 3) (Samples.whole 5)))
            (render_array (firstn (Z.to_nat 3) (Samples.whole 5)))
            (render_array (firstn (Z.to_nat 3) (Samples.whole 5)))
            (render_neighbors
               (map (fun i => filter (fun v => negb (to_size_t v >=? 3))
                                     (scan_row (row 3 Samples.five_rows i)))
                    (pixels 3)))
            false).
Proof.
  apply (terminated_rows_are_encoded 3 "" 12 (Samples.whole 5) (Samples.whole 5)
           (Samples.whole 5) Samples.five_rows 3 false).
  - unfold INT_MAX. lia.
  - unfold is_size_t, SIZE_MAX. lia.
  - vm_compute. discriminate.
  - vm_compute. discriminate.
  - vm_compute. discriminate.
  - reflexivity.
Defined.

(** C3, as the specification has it, fails: row 0 of the table holds no
    sentinel within its width, and yet the record is written, the list of
    pixel 0 running on into row 1. *)
Lemma unterminated_row_is_encoded :
  has_sentinel (row 3 Samples.unterminated 0) = false
  /\ writeDataSetToJson 3 "" 12 [0; 1] [0; 0] [1; 1] Samples.unterminated 2 false
     = Some (entry_text 12 2 "[0, 1]" "[0, 0]" "[1, 1]"
                        "[ [ 1, 0, 1, 0 ], [ 0 ] ]" false).
Proof. split; reflexivity. Qed.

Lemma same_key_entries_both_written_witness :
  (json1 <- writeDataSetToJson 3 "" 384 [1] [2] [3] [-1; -1; -1] 1 true ;;
   writeDataSetToJson 3 json1 384 [4] [5] [6] [-1; -1; -1] 1 false)
  = Some ("" <<< entry_text 384 1 "[1]" "[2]" "[3]" "[ [  ] ]" true
             <<< entry_text 384 1 "[4]" "[5]" "[6]" "[ [  ] ]" false)
  /\ (exists rest1,
         entry_text 384 1 "[1]" "[2]" "[3]" "[ [  ] ]" true
         = entry_key 384 <<< rest1)
  /\ (exists rest2,
         entry_text 384 1 "[4]" "[5]" "[6]" "[ [  ] ]" false
         = entry_key 384 <<< rest2).
Proof.
  apply (same_key_entries_both_written 3 "" 384
           [1] [2] [3] [-1; -1; -1] 1 true [4] [5] [6] [-1; -1; -1] 1 false).
  - reflexivity.
  - reflexivity.
Defined.

(** C5, as the specification has it, fails: after two records with the
    key 384 the text holds two entries opened by that key, not one. *)
Lemma same_key_written_twice :
  option_map (occurrences (entry_key 384)) Samples.collision_doc = Some 2%nat
  /\ 2%nat <> 1%nat.
Proof. split; [reflexivity | discriminate]. Qed.

(** ** One table at two pixel counts *)

Lemma filter_range_nested (n m : Z) (l : list Z) :
  0 <= n <= m -> m <= SIZE_MAX - INT_MAX ->
  (forall v, In v l -> is_int v) ->
  filter (fun v => negb (to_size_t v >=? n)) l
  = filter (fun v => v <? n) (filter (fun v => negb (to_size_t v >=? m)) l).
Proof.
  intros Hn Hm. induction l as [|v l IH]; intros Hint; [reflexivity|].
  cbn [filter]. rewrite !range_test by (auto using in_eq; lia).
  rewrite !negb_involutive. rewrite IH by (intros w Hw; apply Hint; now right).
  destruct (0 <=? v) eqn:E0, (v <? n) eqn:En, (v <? m) eqn:Em;
    cbn [andb filter]; rewrite ?En; try reflexivity;
    apply Z.ltb_lt in En; apply Z.ltb_ge in Em; lia.
Qed.

Lemma truncated_neighbors (NUM_NEIGHBORS : Z) (neighbors : list Z) (n m i : Z) :
  int_table neighbors ->
  0 <= n <= m -> m <= SIZE_MAX - INT_MAX ->
  0 <= i < n ->
  emitted (fst (neighborsToJsonArray_run NUM_NEIGHBORS neighbors n)) i
  = filter (fun v => v <? n)
           (emitted (fst (neighborsToJsonArray_run NUM_NEIGHBORS neighbors m)) i).
Proof.
  intros Hint Hn Hm Hi. rewrite !run_emitted.
  rewrite (reaches_more _ _ (Z.to_nat n) (Z.to_nat m) 0 i) by lia.
  destruct (reaches _ _ _ 0 i); [|reflexivity].
  unfold row_emitted. apply filter_range_nested; try assumption.
  intros v Hv. eapply int_table_In; [exact Hint|].
  eapply row_base_incl, scanned_incl, Hv.
Qed.


(** * The scenarios of the specification, run *)

(** Three active pixels on five rows: pixel 4 is left out of the list of
    pixel 0. *)
Example truncation_scenario :
  emitted (fst (neighborsToJsonArray_run 3 Samples.five_rows 3)) 0 = [1]
  /\ neighborsToJsonArray 3 Samples.five_rows 3 = Some "[ [ 1 ], [ 0, 2 ], [ 1 ] ]".
Proof. split; reflexivity. Qed.

(** The entry -2 is stepped over, the scan goes on to the sentinel. *)
Example negative_entry_scenario :
  neighborsToJsonArray_run 3 Samples.with_negative 2
  = ([Read 0 0; Read 0 1; Emit 0 1; Read 0 2; Read 1 0; Emit 1 0; Read 1 1],
     Some "[ [ 1 ], [ 0 ] ]").
Proof. reflexivity. Qed.

(** A pixel count beyond the table: the run fails at the first row that
    has no storage. *)
Example beyond_the_table :
  neighborsToJsonArray 3 Samples.unterminated 3 = None
  /\ arrayToJsonArray [1; 2] 3 = None.
Proof. split; reflexivity. Qed.

(** The ring of 490 pixels cut down to 379: pixel 378 loses its
    neighbour 379. *)
Example ring_scenario :
  emitted (fst (neighborsToJsonArray_run 3 (Samples.ring 490) 490)) 378 = [379; 377]
  /\ emitted (fst (neighborsToJsonArray_run 3 (Samples.ring 490) 379)) 378 = [377].
Proof. split; vm_compute; reflexivity. Qed.

(** * Further properties of the program *)

(** ** [arrayToJsonArray]: the bounds of the array *)

Section ArrayBounds.
Context {T : Type} `{Insertable T}.

Lemma array_loop_out_of_bounds (array : list T) (npix : Z) :
  forall (todo k : nat) (oss : string),
    (k <= List.length array)%nat -> (List.length array < k + todo)%nat ->
    array_loop array npix todo (Z.of_nat k) oss = None.
Proof.
  induction todo as [|todo IH]; intros k oss Hk Hlen; [lia|].
  cbn [array_loop]. rewrite Nat2Z.id.
  destruct (nth_error array k) as [a|] eqn:Ea; [|reflexivity].
  assert (k < List.length array)%nat by (apply nth_error_Some; congruence).
  replace (Z.of_nat k + 1) with (Z.of_nat (S k)) by lia.
  apply IH; lia.
Qed.

Lemma arrayToJsonArray_none (array : list T) (npix : Z) :
  Z.of_nat (List.length array) < npix -> arrayToJsonArray array npix = None.
Proof.
  intros E. unfold arrayToJsonArray. change 0 with (Z.of_nat 0).
  rewrite array_loop_out_of_bounds; [reflexivity | lia | lia].
Qed.

(** X1.  For a pixel count of type [size_t], [arrayToJsonArray] returns
    the text of the first [npix] elements of the array, in order, when the
    array holds that many, and reads beyond the array otherwise. *)
Theorem arrayToJsonArray_bounds (array : list T) (npix : Z) :
  is_size_t npix ->
  arrayToJsonArray array npix
  = if npix <=? Z.of_nat (List.length array)
    then Some (render_array (firstn (Z.to_nat npix) array))
    else None.
Proof.
  intros Hn. destruct (npix <=? Z.of_nat (List.length array)) eqn:E.
  - apply Z.leb_le in E. now apply arrayToJsonArray_text.
  - apply Z.leb_gt in E. now apply arrayToJsonArray_none.
Qed.

End ArrayBounds.

Lemma arrayToJsonArray_bounds_witness :
  arrayToJsonArray [7; 8] 3
  = if 3 <=? Z.of_nat (List.length [7; 8])
    then Some (render_array (firstn (Z.to_nat 3) [7; 8]))
    else None.
Proof.
  apply (arrayToJsonArray_bounds [7; 8] 3).
  unfold is_size_t, SIZE_MAX. lia.
Defined.

(** ** [neighborsToJsonArray]: rows without a sentinel *)

(** In storage that [j] can walk through without leaving the range of
    [int], the inner loop fails exactly when there is no sentinel, and it
    steps over the cells before the first one. *)
Lemma scan_within_int (cells : list Z) :
  forall j : Z,
    j + Z.of_nat (List.length cells) <= INT_MAX + 1 ->
    row_faults cells j = negb (has_sentinel cells)
    /\ scanned cells j = scan_row cells.
Proof.
  induction cells as [|v rest IH]; intros j Hj; [now split|].
  cbn [row_faults scanned scan_row has_sentinel existsb].
  destruct (v =? -1); [now split|]. cbn [orb].
  cbn [List.length] in Hj.
  destruct (j =? INT_MAX) eqn:Ej.
  - apply Z.eqb_eq in Ej. destruct rest as [|w rest]; [now split|].
    cbn [List.length] in Hj. lia.
  - apply Z.eqb_neq in Ej. destruct (IH (j + 1)) as [Hf Hs]; [lia|].
    split; [exact Hf | now rewrite Hs].
Qed.

Lemma row_base_length (NUM_NEIGHBORS : Z) (neighbors : list Z) (i : Z) :
  (List.length (row_base NUM_NEIGHBORS neighbors i) <= List.length neighbors)%nat.
Proof. unfold row_base. rewrite length_skipn. lia. Qed.

Lemma row_base_scan (NUM_NEIGHBORS : Z) (neighbors : list Z) (i : Z) :
  Z.of_nat (List.length neighbors) <= INT_MAX ->
  row_faults (row_base NUM_NEIGHBORS neighbors i) 0
  = negb (has_sentinel (row_base NUM_NEIGHBORS neighbors i))
  /\ scanned (row_base NUM_NEIGHBORS neighbors i) 0
     = scan_row (row_base NUM_NEIGHBORS neighbors i).
Proof.
  intros Hlen. apply scan_within_int.
  pose proof (row_base_length NUM_NEIGHBORS neighbors i). lia.
Qed.

(** A sentinel behind the start of row [i] is behind the start of every
    earlier row. *)
Lemma row_base_sentinel_earlier (NUM_NEIGHBORS : Z) (neighbors : list Z) (r i : Z) :
  0 <= r <= i ->
  has_sentinel (row_base NUM_NEIGHBORS neighbors i) = true ->
  has_sentinel (row_base NUM_NEIGHBORS neighbors r) = true.
Proof.
  intros Hr. unfold row_base, has_sentinel. rewrite !existsb_exists.
  intros (v & Hin & Hv). exists v. split; [|exact Hv].
  assert (Hle : (Z.to_nat (r * NUM_NEIGHBORS) <= Z.to_nat (i * NUM_NEIGHBORS))%nat).
  { destruct (Z_lt_le_dec NUM_NEIGHBORS 0); [|nia].
    assert (i * NUM_NEIGHBORS <= 0) by nia.
    assert (r * NUM_NEIGHBORS <= 0) by nia. lia. }
  replace (Z.to_nat (i * NUM_NEIGHBORS))
    with ((Z.to_nat (i * NUM_NEIGHBORS) - Z.to_nat (r * NUM_NEIGHBORS))
          + Z.to_nat (r * NUM_NEIGHBORS))%nat in Hin by lia.
  rewrite <- skipn_skipn in Hin.
  match type of Hin with In _ (skipn ?k ?l) =>
    rewrite <- (firstn_skipn k l) end.
  apply in_or_app. now right.
Qed.

(** X3.  On a table of [int]s of at most [INT_MAX] cells, the list of a
    pixel [i] whose row start is followed by a sentinel anywhere in the
    table consists of the values from the start of row [i] up to that
    sentinel that lie in [0, numTubes), in their order: a row without a
    sentinel of its own takes in the cells of the rows behind it. *)
Theorem list_runs_to_next_sentinel
        (NUM_NEIGHBORS : Z) (neighbors : list Z) (numTubes i : Z) :
  Z.of_nat (List.length neighbors) <= INT_MAX ->
  int_table neighbors ->
  0 <= numTubes <= SIZE_MAX - INT_MAX ->
  0 <= i < numTubes ->
  has_sentinel (row_base NUM_NEIGHBORS neighbors i) = true ->
  emitted (fst (neighborsToJsonArray_run NUM_NEIGHBORS neighbors numTubes)) i
  = filter (fun v => (0 <=? v) && (v <? numTubes))
           (scan_row (row_base NUM_NEIGHBORS neighbors i)).
Proof.
  intros Hlen Hint Hn Hi Hs. rewrite run_emitted, reaches_all.
  - unfold row_emitted.
    rewrite (proj2 (row_base_scan NUM_NEIGHBORS neighbors i Hlen)).
    apply filter_ext_in. intros v Hv. rewrite range_test.
    + apply negb_involutive.
    + eapply int_table_In; [exact Hint|].
      eapply row_base_incl, scan_row_incl, Hv.
    + exact Hn.
  - intros r Hr.
    rewrite (proj1 (row_base_scan NUM_NEIGHBORS neighbors r Hlen)).
    rewrite (row_base_sentinel_earlier NUM_NEIGHBORS neighbors r i); [reflexivity | lia | exact Hs].
  - lia.
Qed.

Lemma list_runs_to_next_sentinel_witness :
  emitted (fst (neighborsToJsonArray_run 3 Samples.unterminated 2)) 0
  = filter (fun v => (0 <=? v) && (v <? 2))
           (scan_row (row_base 3 Samples.unterminated 0)).
Proof.
  apply (list_runs_to_next_sentinel 3 Samples.unterminated 2 0).
  - vm_compute. discriminate.
  - reflexivity.
  - unfold SIZE_MAX, INT_MAX. lia.
  - lia.
  - reflexivity.
Defined.




Lemma pixels_length (n : Z) : List.length (pixels n) = Z.to_nat n.
Proof. unfold pixels. now rewrite length_map, length_seq. Qed.

(** X5.  For every table: when [neighborsToJsonArray] returns a text, the
    text consists of exactly [numTubes] bracketed lists, the list at
    position [i] being the values streamed for pixel [i]. *)
Theorem text_is_the_streamed_lists
        (NUM_NEIGHBORS : Z) (neighbors : list Z) (numTubes : Z) (text : string) :
  is_size_t numTubes ->
  neighborsToJsonArray NUM_NEIGHBORS neighbors numTubes = Some text ->
  let lists :=
    map (emitted (fst (neighborsToJsonArray_run NUM_NEIGHBORS neighbors numTubes)))
        (pixels numTubes) in
  text = render_neighbors lists /\ Z.of_nat (List.length lists) = numTubes.
Proof.
  intros Hn Ht lists. split.
  - now apply run_text_emitted.
  - unfold lists. rewrite length_map, pixels_length.
    unfold is_size_t in Hn. lia.
Qed.

Lemma text_is_the_streamed_lists_witness :
  let lists :=
    map (emitted (fst (neighborsToJsonArray_run 3 Samples.unterminated 2)))
        (pixels 2) in
  "[ [ 1, 0, 1, 0 ], [ 0 ] ]" = render_neighbors lists
  /\ Z.of_nat (List.length lists) = 2.
Proof.
  apply (text_is_the_streamed_lists 3 Samples.unterminated 2).
  - unfold is_size_t, SIZE_MAX. lia.
  - reflexivity.
Defined.

(** ** [neighborsToJsonArray]: the cells evaluated *)

Lemma row_loop_reads_in_storage (n i : Z) :
  forall (cells : list Z) (j : Z) (oss : string) (first : bool) (i' j' : Z),
    snd (row_loop n i cells j oss first) <> None ->
    In (Read i' j') (fst (row_loop n i cells j oss first)) ->
    exists (d : nat) (v : Z), j' = j + Z.of_nat d /\ nth_error cells d = Some v.
Proof.
  induction cells as [|c rest IH]; intros j oss first i' j' Hs Hin.
  - now cbn in Hs.
  - assert (Hhead : forall es, In (Read i' j') (Read i j :: es) ->
                               (forall e, In e es -> exists v, e = Emit i v) ->
                               exists (d : nat) (v : Z),
                                 j' = j + Z.of_nat d
                                 /\ nth_error (c :: rest) d = Some v).
    { intros es [E|Hes] Hall.
      - inversion E; subst. exists 0%nat, c. split; [lia | reflexivity].
      - destruct (Hall _ Hes) as [v Hv]. discriminate. }
    assert (Htail : forall d v, (exists j'', j' = j'' /\ j'' = j + 1 + Z.of_nat d)
                                -> nth_error rest d = Some v ->
                                exists (d0 : nat) (v0 : Z),
                                  j' = j + Z.of_nat d0
                                  /\ nth_error (c :: rest) d0 = Some v0).
    { intros d v (j'' & -> & ->) Hn. exists (S d), v. split; [lia | exact Hn]. }
    cbn [row_loop] in Hs, Hin.
    destruct (c =? -1).
    { apply (Hhead [] Hin). intros e []. }
    destruct (to_size_t c >=? n); destruct (j =? INT_MAX);
      try (now cbn in Hs).
    + specialize (IH (j + 1) oss first i' j').
      destruct (row_loop n i rest (j + 1) oss first) as [t r].
      cbn [fst snd] in *. destruct Hin as [E|Hin].
      * apply (Hhead []); [now left | intros e []].
      * destruct (IH Hs Hin) as (d & v & Hd & Hn).
        apply (Htail d v); [now exists j' | exact Hn].
    + match type of Hin with context [row_loop n i rest (j + 1) ?o false] =>
        specialize (IH (j + 1) o false i' j');
        destruct (row_loop n i rest (j + 1) o false) as [t r] end.
      cbn [fst snd] in *. destruct Hin as [E|[E|Hin]]; [| discriminate |].
      * apply (Hhead []); [now left | intros e []].
      * destruct (IH Hs Hin) as (d & v & Hd & Hn).
        apply (Htail d v); [now exists j' | exact Hn].
Qed.

Lemma tubes_loop_reads_in_storage (NUM_NEIGHBORS : Z) (neighbors : list Z) (n : Z) :
  forall (todo : nat) (i : Z) (oss : string) (i' j' : Z),
    snd (tubes_loop NUM_NEIGHBORS neighbors n todo i oss) <> None ->
    In (Read i' j') (fst (tubes_loop NUM_NEIGHBORS neighbors n todo i oss)) ->
    exists (d : nat) (v : Z),
      j' = Z.of_nat d /\ nth_error (row_base NUM_NEIGHBORS neighbors i') d = Some v.
Proof.
  induction todo as [|todo IH]; intros i oss i' j' Hs Hin; [destruct Hin|].
  cbn [tubes_loop] in Hs, Hin.
  pose proof (row_loop_reads_in_storage n i (row_base NUM_NEIGHBORS neighbors i) 0
                (oss <<< "[ ") true i' j') as Hrow.
  destruct (row_loop_spec n i (row_base NUM_NEIGHBORS neighbors i) 0
                          (oss <<< "[ ") true) as (_ & _ & Htag).
  destruct (row_loop n i (row_base NUM_NEIGHBORS neighbors i) 0 (oss <<< "[ ") true)
    as [t r].
  cbn [fst snd] in Hrow, Htag.
  destruct r as [oss'|]; [|now cbn in Hs].
  match type of Hin with context [tubes_loop _ _ _ todo (i + 1) ?o] =>
    specialize (IH (i + 1) o i' j');
    destruct (tubes_loop NUM_NEIGHBORS neighbors n todo (i + 1) o) as [t' r'] end.
  cbn [fst snd] in *. apply in_app_or in Hin. destruct Hin as [Hin|Hin].
  - destruct (Htag _ _ Hin) as (-> & _).
    destruct (Hrow ltac:(discriminate) Hin) as (d & v & Hd & Hn).
    exists d, v. split; [lia | exact Hn].
  - apply IH; assumption.
Qed.

Lemma reads_app (t t' : trace) (k : Z) :
  reads (t ++ t') k = reads t k ++ reads t' k.
Proof.
  induction t as [|[i j|i v] t IH]; cbn [reads app]; auto.
  destruct (i =? k); [now rewrite IH | exact IH].
Qed.

Lemma row_loop_reads (n i : Z) :
  forall (cells : list Z) (j : Z) (oss : string) (first : bool) (k : Z),
    reads (fst (row_loop n i cells j oss first)) k
    = if i =? k then row_reads cells j else [].
Proof.
  induction cells as [|c rest IH]; intros j oss first k.
  - cbn. now destruct (i =? k).
  - cbn [row_loop row_reads]. destruct (c =? -1).
    { cbn. now destruct (i =? k). }
    destruct (to_size_t c >=? n); destruct (j =? INT_MAX).
    + cbn. now destruct (i =? k).
    + specialize (IH (j + 1) oss first k).
      destruct (row_loop n i rest (j + 1) oss first) as [t r].
      cbn [fst reads] in *. rewrite IH. now destruct (i =? k).
    + cbn. now destruct (i =? k).
    + match goal with |- context [row_loop n i rest (j + 1) ?o false] =>
        specialize (IH (j + 1) o false k);
        destruct (row_loop n i rest (j + 1) o false) as [t r] end.
      cbn [fst reads] in *. rewrite IH. now destruct (i =? k).
Qed.

Lemma tubes_loop_row_reads (NUM_NEIGHBORS : Z) (neighbors : list Z) (n : Z) :
  forall (todo : nat) (i : Z) (oss : string) (k : Z),
    reads (fst (tubes_loop NUM_NEIGHBORS neighbors n todo i oss)) k
    = if reaches NUM_NEIGHBORS neighbors todo i k
      then row_reads (row_base NUM_NEIGHBORS neighbors k) 0 else [].
Proof.
  induction todo as [|todo IH]; intros i oss k; [reflexivity|].
  cbn [tubes_loop reaches].
  pose proof (row_loop_reads n i (row_base NUM_NEIGHBORS neighbors i) 0
                (oss <<< "[ ") true k) as Hreads.
  destruct (row_loop_spec n i (row_base NUM_NEIGHBORS neighbors i) 0
                          (oss <<< "[ ") true) as (_ & Hr & _).
  destruct (row_loop n i (row_base NUM_NEIGHBORS neighbors i) 0 (oss <<< "[ ") true)
    as [t r].
  cbn [fst snd] in Hreads, Hr.
  destruct (row_faults (row_base NUM_NEIGHBORS neighbors i) 0); subst r.
  - cbn [fst]. rewrite Hreads. destruct (i =? k) eqn:E; [|reflexivity].
    apply Z.eqb_eq in E. now subst.
  - match goal with |- context [tubes_loop _ _ _ todo (i + 1) ?o] =>
      specialize (IH (i + 1) o k);
      destruct (tubes_loop NUM_NEIGHBORS neighbors n todo (i + 1) o) as [t' r'] end.
    cbn [fst] in *. rewrite reads_app, Hreads, IH.
    destruct (i =? k) eqn:E; [|reflexivity].
    apply Z.eqb_eq in E. subst k.
    rewrite reaches_behind by lia. now rewrite app_nil_r.
Qed.

Lemma columns_S (j : Z) (n : nat) : columns j (S n) = j :: columns (j + 1) n.
Proof.
  unfold columns. cbn [seq map]. f_equal; [lia|].
  rewrite <- seq_shift, map_map. apply map_ext. intros d. lia.
Qed.

Lemma row_reads_to_sentinel (cells : list Z) :
  forall j : Z,
    has_sentinel cells = true ->
    j + Z.of_nat (List.length cells) <= INT_MAX + 1 ->
    row_reads cells j = columns j (S (List.length (scan_row cells))).
Proof.
  induction cells as [|c rest IH]; intros j Hs Hj; [discriminate|].
  cbn [row_reads scan_row has_sentinel existsb] in *.
  rewrite columns_S. f_equal.
  destruct (c =? -1); [reflexivity|]. cbn [orb] in Hs.
  cbn [List.length] in Hj.
  destruct rest as [|c' rest']; [discriminate|].
  replace (j =? INT_MAX) with false
    by (symmetry; apply Z.eqb_neq; cbn [List.length] in Hj; lia).
  cbn [List.length]. apply IH; [exact Hs | lia].
Qed.

(** ** [writeDataSetToJson] and [main]: framing and composition *)

Section DocumentFacts.
Variable NUM_NEIGHBORS : Z.
Context {float : Type} `{Insertable float}.

(** X9.  When [writeDataSetToJson] returns, the stream holds what it held
    before, followed by the entry; the entry does not depend on what the
    stream held, and the flag [more] decides only whether the brace that
    closes the entry is followed by a comma. *)
Theorem entry_is_appended (json : string) (nadc : Z)
        (posX posY radius : list float) (neighbors : list Z) (npix : Z)
        (more : bool) (result : string) :
  writeDataSetToJson NUM_NEIGHBORS json nadc posX posY radius neighbors npix more
  = Some result ->
  exists body : string,
    forall (json' : string) (more' : bool),
      writeDataSetToJson NUM_NEIGHBORS json' nadc posX posY radius neighbors
                         npix more'
      = Some (json' <<< body <<< (if more' then "  }," else "  }") <<< nl).
Proof.
  intros Hres.
  destruct (arrayToJsonArray posX npix) as [x|] eqn:Hx.
  2:{ unfold writeDataSetToJson in Hres. now rewrite Hx in Hres. }
  destruct (arrayToJsonArray posY npix) as [y|] eqn:Hy.
  2:{ unfold writeDataSetToJson in Hres. now rewrite Hx, Hy in Hres. }
  destruct (arrayToJsonArray radius npix) as [r|] eqn:Hr.
  2:{ unfold writeDataSetToJson in Hres. now rewrite Hx, Hy, Hr in Hres. }
  destruct (neighborsToJsonArray NUM_NEIGHBORS neighbors npix) as [n|] eqn:Hn.
  2:{ unfold writeDataSetToJson in Hres. now rewrite Hx, Hy, Hr, Hn in Hres. }
  exists (entry_key nadc
          <<< field "nadc" (put nadc) <<< "," <<< nl
          <<< field "npix" (put npix) <<< "," <<< nl
          <<< field "x" x <<< "," <<< nl
          <<< field "y" y <<< "," <<< nl
          <<< field "r" r <<< "," <<< nl
          <<< field "neighbors" n <<< nl).
  intros json' more'.
  rewrite (writeDataSetToJson_layout NUM_NEIGHBORS json' nadc _ _ _ _ _ more' x y r n)
    by assumption.
  unfold entry_text. now rewrite !append_assoc.
Qed.

(** The document of [main], entry by entry. *)
Lemma main_json_is_five_entries (cams : WhippleCams float) :
  main_json NUM_NEIGHBORS cams
  = (e120 <- writeDataSetToJson NUM_NEIGHBORS "" 120
               (WC109Xcoord cams) (WC109Ycoord cams) (WC109Radius cams)
               (WC109Neighbors cams) 109 true ;;
     e156 <- writeDataSetToJson NUM_NEIGHBORS "" 156
               (WC151Xcoord cams) (WC151Ycoord cams) (WC151Radius cams)
               (WC151Neighbors cams) 151 true ;;
     e336 <- writeDataSetToJson NUM_NEIGHBORS "" 336
               (WC331Xcoord cams) (WC331Ycoord cams) (WC331Radius cams)
               (WC331Neighbors cams) 331 true ;;
     e492 <- writeDataSetToJson NUM_NEIGHBORS "" 492
               (WC490Xcoord cams) (WC490Ycoord cams) (WC490Radius cams)
               (WC490Neighbors cams) 490 true ;;
     e384 <- writeDataSetToJson NUM_NEIGHBORS "" 384
               (WC490Xcoord cams) (WC490Ycoord cams) (WC490Radius cams)
               (WC490Neighbors cams) 379 false ;;
     Some ("{" <<< nl <<< header_line
               <<< e120 <<< e156 <<< e336 <<< e492 <<< e384 <<< "}" <<< nl)).
Proof.
  unfold main_json.
  rewrite (writeDataSetToJson_appends NUM_NEIGHBORS _ 120).
  destruct (writeDataSetToJson NUM_NEIGHBORS "" 120 _ _ _ _ 109 true) as [e120|];
    [|reflexivity].
  rewrite (writeDataSetToJson_appends NUM_NEIGHBORS _ 156).
  destruct (writeDataSetToJson NUM_NEIGHBORS "" 156 _ _ _ _ 151 true) as [e156|];
    [|reflexivity].
  rewrite (writeDataSetToJson_appends NUM_NEIGHBORS _ 336).
  destruct (writeDataSetToJson NUM_NEIGHBORS "" 336 _ _ _ _ 331 true) as [e336|];
    [|reflexivity].
  rewrite (writeDataSetToJson_appends NUM_NEIGHBORS _ 492).
  destruct (writeDataSetToJson NUM_NEIGHBORS "" 492 _ _ _ _ 490 true) as [e492|];
    [|reflexivity].
  rewrite (writeDataSetToJson_appends NUM_NEIGHBORS _ 384).
  destruct (writeDataSetToJson NUM_NEIGHBORS "" 384 _ _ _ _ 379 false) as [e384|];
    reflexivity.
Qed.

Lemma neighbors_return_at_fewer_pixels (neighbors : list Z) (n m : Z) (text : string) :
  is_size_t m -> 0 <= n <= m ->
  neighborsToJsonArray NUM_NEIGHBORS neighbors m = Some text ->
  exists text', neighborsToJsonArray NUM_NEIGHBORS neighbors n = Some text'.
Proof.
  intros Hm Hn. assert (Hsn : is_size_t n) by (unfold is_size_t in *; lia).
  rewrite !run_text by assumption.
  destruct (existsb _ (pixels m)) eqn:Em; [discriminate|]. intros _.
  destruct (existsb _ (pixels n)) eqn:En; [|eexists; reflexivity].
  exfalso. apply existsb_exists in En. destruct En as (r & Hr & Hf).
  assert (Hex : existsb (fun r => row_faults (row_base NUM_NEIGHBORS neighbors r) 0)
                        (pixels m) = true).
  { apply existsb_exists. exists r. split; [|exact Hf].
    apply In_pixels. apply In_pixels in Hr. lia. }
  congruence.
Qed.

(** X12.  When a record is written with [m] pixels from tables of
    [int]s, it is also written with any smaller pixel count [n] from the
    same tables: its coordinate sequences are then the first [n] elements
    of those written with [m], and the neighbour list of each pixel below
    [n] is the list written with [m] without its entries from [n] on. *)
Theorem record_at_fewer_pixels (json : string) (nadc : Z)
        (posX posY radius : list float) (neighbors : list Z) (n m : Z)
        (more : bool) (text : string) :
  int_table neighbors ->
  0 <= n <= m -> m <= SIZE_MAX - INT_MAX ->
  writeDataSetToJson NUM_NEIGHBORS json nadc posX posY radius neighbors m more
  = Some text ->
  (exists text',
      writeDataSetToJson NUM_NEIGHBORS json nadc posX posY radius neighbors n more
      = Some text')
  /\ arrayToJsonArray posX n
     = Some (render_array (firstn (Z.to_nat n) (firstn (Z.to_nat m) posX)))
  /\ arrayToJsonArray posY n
     = Some (render_array (firstn (Z.to_nat n) (firstn (Z.to_nat m) posY)))
  /\ arrayToJsonArray radius n
     = Some (render_array (firstn (Z.to_nat n) (firstn (Z.to_nat m) radius)))
  /\ forall i, 0 <= i < n ->
       emitted (fst (neighborsToJsonArray_run NUM_NEIGHBORS neighbors n)) i
       = filter (fun v => v <? n)
           (emitted (fst (neighborsToJsonArray_run NUM_NEIGHBORS neighbors m)) i).
Proof.
  intros Hint Hn Hm Hres.
  assert (Hsm : is_size_t m) by (unfold is_size_t, SIZE_MAX, INT_MAX in *; lia).
  assert (Hsn : is_size_t n) by (unfold is_size_t in *; lia).
  assert (Hlen : forall a : list float,
             arrayToJsonArray a m <> None -> m <= Z.of_nat (List.length a)).
  { intros a Ha. destruct (Z_lt_le_dec (Z.of_nat (List.length a)) m) as [E|E];
      [|exact E].
    now rewrite (arrayToJsonArray_none a m E) in Ha. }
  assert (Harr : forall a : list float,
             m <= Z.of_nat (List.length a) ->
             arrayToJsonArray a n
             = Some (render_array (firstn (Z.to_nat n) (firstn (Z.to_nat m) a)))).
  { intros a Ha. rewrite arrayToJsonArray_text by (assumption || lia).
    rewrite firstn_firstn. do 3 f_equal. lia. }
  unfold writeDataSetToJson in Hres.
  destruct (arrayToJsonArray posX m) as [x|] eqn:Hx; [|discriminate].
  destruct (arrayToJsonArray posY m) as [y|] eqn:Hy; [|discriminate].
  destruct (arrayToJsonArray radius m) as [r|] eqn:Hr; [|discriminate].
  destruct (neighborsToJsonArray NUM_NEIGHBORS neighbors m) as [t|] eqn:Ht;
    [|discriminate].
  assert (Lx : m <= Z.of_nat (List.length posX)) by (apply Hlen; congruence).
  assert (Ly : m <= Z.of_nat (List.length posY)) by (apply Hlen; congruence).
  assert (Lr : m <= Z.of_nat (List.length radius)) by (apply Hlen; congruence).
  destruct (neighbors_return_at_fewer_pixels neighbors n m t Hsm Hn Ht) as [t' Ht'].
  split; [|split; [|split; [|split]]]; try (apply Harr; assumption).
  - eexists. apply writeDataSetToJson_layout; try (apply Harr; assumption).
    exact Ht'.
  - intros i Hi. apply truncated_neighbors; assumption.
Qed.

End DocumentFacts.

Lemma entry_is_appended_witness :
  exists body : string,
    forall (json' : string) (more' : bool),
      writeDataSetToJson 3 json' 12 [0; 1] [0; 0] [1; 1] Samples.unterminated 2 more'
      = Some (json' <<< body <<< (if more' then "  }," else "  }") <<< nl).
Proof.
  apply (entry_is_appended 3 "" 12 [0; 1] [0; 0] [1; 1] Samples.unterminated 2 false
           (entry_text 12 2 "[0, 1]" "[0, 0]" "[1, 1]"
                       "[ [ 1, 0, 1, 0 ], [ 0 ] ]" false)).
  reflexivity.
Defined.

Lemma record_at_fewer_pixels_witness :
  (exists text',
      writeDataSetToJson 3 "" 12 (Samples.whole 5) (Samples.whole 5) (Samples.whole 5)
                         Samples.five_rows 3 false
      = Some text')
  /\ arrayToJsonArray (Samples.whole 5) 3
     = Some (render_array (firstn (Z.to_nat 3) (firstn (Z.to_nat 5) (Samples.whole 5))))
  /\ arrayToJsonArray (Samples.whole 5) 3
     = Some (render_array (firstn (Z.to_nat 3) (firstn (Z.to_nat 5) (Samples.whole 5))))
  /\ arrayToJsonArray (Samples.whole 5) 3
     = Some (render_array (firstn (Z.to_nat 3) (firstn (Z.to_nat 5) (Samples.whole 5))))
  /\ forall i, 0 <= i < 3 ->
       emitted (fst (neighborsToJsonArray_run 3 Samples.five_rows 3)) i
       = filter (fun v => v <? 3)
           (emitted (fst (neighborsToJsonArray_run 3 Samples.five_rows 5)) i).
Proof.
  apply (record_at_fewer_pixels 3 "" 12 (Samples.whole 5) (Samples.whole 5)
           (Samples.whole 5) Samples.five_rows 3 5 false
           (entry_text 12 5 "[0, 1, 2, 3, 4]" "[0, 1, 2, 3, 4]" "[0, 1, 2, 3, 4]"
              "[ [ 1, 4 ], [ 0, 2 ], [ 1, 3 ], [ 2, 4 ], [ 3, 0 ] ]" false)).
  - reflexivity.
  - lia.
  - unfold SIZE_MAX, INT_MAX. lia.
  - reflexivity.
Defined.

(** ** Rows with a sentinel: how much is read and written *)

Lemma row_reads_in_width (cells : list Z) :
  forall (w : nat) (j : Z),
    has_sentinel (firstn w cells) = true ->
    row_reads cells j = row_reads (firstn w cells) j.
Proof.
  induction cells as [|c rest IH]; intros w j Hs.
  - now destruct w.
  - destruct w as [|w]; [discriminate|].
    cbn [firstn row_reads has_sentinel existsb] in *.
    destruct (c =? -1); [reflexivity|]. cbn [orb] in Hs.
    destruct (j =? INT_MAX); [reflexivity|].
    f_equal. apply IH, Hs.
Qed.

Lemma scan_row_shorter (cells : list Z) :
  has_sentinel cells = true ->
  (List.length (scan_row cells) < List.length cells)%nat.
Proof.
  induction cells as [|c rest IH]; [discriminate|].
  cbn [has_sentinel existsb scan_row List.length].
  destruct (c =? -1); cbn [orb List.length]; [lia|].
  intros Hs. apply IH in Hs. lia.
Qed.

(** X13.  In a table whose first [npix] rows each hold a sentinel within
    the row width, the run evaluates for a pixel [i] below [npix] at most
    [NUM_NEIGHBORS] cells, all of them in row [i], and streams fewer than
    [NUM_NEIGHBORS] values. *)
Theorem terminated_row_work_is_bounded
        (NUM_NEIGHBORS : Z) (neighbors : list Z) (npix i : Z) :
  NUM_NEIGHBORS <= INT_MAX ->
  sentinel_rows NUM_NEIGHBORS neighbors npix = true ->
  0 <= i < npix ->
  let t := fst (neighborsToJsonArray_run NUM_NEIGHBORS neighbors npix) in
  reads t i = columns 0 (S (List.length (scan_row (row NUM_NEIGHBORS neighbors i))))
  /\ Z.of_nat (List.length (reads t i)) <= NUM_NEIGHBORS
  /\ Z.of_nat (List.length (emitted t i)) < NUM_NEIGHBORS.
Proof.
  intros Hw Hrows Hi t.
  assert (Hsi : has_sentinel (row NUM_NEIGHBORS neighbors i) = true).
  { unfold sentinel_rows in Hrows. rewrite forallb_forall in Hrows.
    apply Hrows, In_pixels, Hi. }
  pose proof (scan_row_shorter _ Hsi) as Hshort.
  assert (Hrow : (List.length (row NUM_NEIGHBORS neighbors i)
                  <= Z.to_nat NUM_NEIGHBORS)%nat).
  { unfold row. rewrite length_firstn. lia. }
  assert (Hreads : reads t i
                   = columns 0 (S (List.length
                                     (scan_row (row NUM_NEIGHBORS neighbors i))))).
  { unfold t. rewrite run_trace, tubes_loop_row_reads, reaches_all.
    - unfold row in *. rewrite (row_reads_in_width _ _ 0 Hsi).
      apply row_reads_to_sentinel; [exact Hsi|]. unfold INT_MAX in *. lia.
    - intros r Hr.
      apply (sentinel_row_scan NUM_NEIGHBORS neighbors npix Hw Hrows). lia.
    - lia. }
  split; [exact Hreads|]. split.
  - rewrite Hreads. unfold columns. rewrite length_map, length_seq. lia.
  - unfold t. rewrite sentinel_rows_emitted by assumption.
    match goal with |- context [filter ?f ?l] =>
      pose proof (filter_length_le f l) end.
    lia.
Qed.

Lemma terminated_row_work_is_bounded_witness :
  let t := fst (neighborsToJsonArray_run 3 Samples.five_rows 3) in
  reads t 0 = columns 0 (S (List.length (scan_row (row 3 Samples.five_rows 0))))
  /\ Z.of_nat (List.length (reads t 0)) <= 3
  /\ Z.of_nat (List.length (emitted t 0)) < 3.
Proof.
  apply (terminated_row_work_is_bounded 3 Samples.five_rows 3 0).
  - unfold INT_MAX. lia.
  - reflexivity.
  - lia.
Defined.

(** * The text of a [float] *)

Section FloatFacts.
Import FloatText.

Lemma log10_loop_spec (fuel : nat) :
  forall n : Z,
    1 <= n < 2 ^ Z.of_nat fuel ->
    0 <= log10_loop fuel n
    /\ 10 ^ log10_loop fuel n <= n < 10 ^ (log10_loop fuel n + 1).
Proof.
  induction fuel as [|fuel IH]; intros n Hn.
  - cbn in Hn. lia.
  - cbn [log10_loop]. destruct (n <? 10) eqn:E.
    + apply Z.ltb_lt in E. cbn. lia.
    + apply Z.ltb_ge in E.
      assert (Hq : 1 <= n / 10 < 2 ^ Z.of_nat fuel).
      { split.
        - apply Z.div_le_lower_bound; lia.
        - apply Z.div_lt_upper_bound; [lia|].
          rewrite Nat2Z.inj_succ, Z.pow_succ_r in Hn by lia. lia. }
      destruct (IH (n / 10) Hq) as (H0 & Hlo & Hhi).
      pose proof (Z.div_mod n 10 ltac:(lia)) as Hdm.
      pose proof (Z.mod_pos_bound n 10 ltac:(lia)) as Hm.
      split; [lia|].
      replace (1 + log10_loop fuel (n / 10) + 1)
        with (Z.succ (log10_loop fuel (n / 10) + 1)) by lia.
      replace (1 + log10_loop fuel (n / 10))
        with (Z.succ (log10_loop fuel (n / 10))) by lia.
      rewrite !Z.pow_succ_r by lia. lia.
Qed.

Lemma log10_spec (n : Z) :
  1 <= n -> 0 <= log10 n /\ 10 ^ log10 n <= n < 10 ^ (log10 n + 1).
Proof.
  intros Hn. unfold log10. apply log10_loop_spec. split; [exact Hn|].
  rewrite Nat2Z.inj_succ, Z2Nat.id by apply Z.log2_nonneg.
  apply Z.log2_spec. lia.
Qed.

(** From a bound on a quotient to a bound on the dividend. *)
Lemma quotient_bounds (a b lo hi : Z) :
  0 < b -> lo <= a / b < hi -> b * lo <= a < b * hi.
Proof.
  intros Hb [Hlo Hhi].
  pose proof (Z.div_mod a b ltac:(lia)) as Hdm.
  pose proof (Z.mod_pos_bound a b Hb) as Hm.
  split; nia.
Qed.

(** Scaled by [10^(5 - X)], the value lies between [10^5] and [10^6]. *)
Lemma decimal_exponent_spec (num den : Z) :
  0 < num -> 0 < den ->
  let '(a, b) := scale (decimal_exponent num den) in
  0 < den * b /\ 100000 * (den * b) <= num * a < 1000000 * (den * b).
Proof.
  intros Hnum Hden. unfold decimal_exponent, scale.
  destruct (den <=? num) eqn:Ecmp.
  - apply Z.leb_le in Ecmp.
    assert (Hq : 1 <= num / den) by (apply Z.div_le_lower_bound; lia).
    destruct (log10_spec _ Hq) as (H0 & Hlog).
    apply (quotient_bounds num den) in Hlog; [|exact Hden].
    set (X := log10 (num / den)) in *.
    destruct (X <=? 5) eqn:EX.
    + apply Z.leb_le in EX.
      assert (Hp : 10 ^ X * 10 ^ (5 - X) = 100000).
      { rewrite <- Z.pow_add_r by lia. now replace (X + (5 - X)) with 5 by lia. }
      assert (Hpa : 0 < 10 ^ (5 - X)) by (apply Z.pow_pos_nonneg; lia).
      rewrite Z.pow_add_r in Hlog by lia. change (10 ^ 1) with 10 in Hlog.
      split; [lia|]. split; nia.
    + apply Z.leb_gt in EX.
      assert (Hp : 10 ^ X = 100000 * 10 ^ (X - 5)).
      { change 100000 with (10 ^ 5). rewrite <- Z.pow_add_r by lia.
        now replace (5 + (X - 5)) with X by lia. }
      assert (Hpb : 0 < 10 ^ (X - 5)) by (apply Z.pow_pos_nonneg; lia).
      rewrite Z.pow_add_r in Hlog by lia. change (10 ^ 1) with 10 in Hlog.
      split; [nia|]. split; nia.
  - apply Z.leb_gt in Ecmp.
    assert (Hq : 1 <= den / num) by (apply Z.div_le_lower_bound; lia).
    destruct (log10_spec _ Hq) as (H0 & Hlog).
    apply (quotient_bounds den num) in Hlog; [|exact Hnum].
    set (k := log10 (den / num)) in *.
    assert (Hpk : 0 < 10 ^ k) by (apply Z.pow_pos_nonneg; lia).
    rewrite Z.pow_add_r in Hlog by lia. change (10 ^ 1) with 10 in Hlog.
    destruct (den <=? num * 10 ^ k) eqn:Eeq.
    + apply Z.leb_le in Eeq.
      replace (- k <=? 5) with true by (symmetry; apply Z.leb_le; lia).
      replace (5 - - k) with (k + 5) by lia.
      rewrite Z.pow_add_r by lia. change (10 ^ 5) with 100000.
      split; [lia|]. split; nia.
    + apply Z.leb_gt in Eeq.
      replace (- (k + 1) <=? 5) with true by (symmetry; apply Z.leb_le; lia).
      replace (5 - - (k + 1)) with (k + 6) by lia.
      rewrite Z.pow_add_r by lia. change (10 ^ 6) with 1000000.
      split; [lia|]. split; nia.
Qed.

Lemma round_div_spec (a b : Z) :
  0 < b -> Z.abs (2 * a - 2 * round_div a b * b) <= b.
Proof.
  intros Hb. unfold round_div.
  pose proof (Z.div_mod a b ltac:(lia)) as Hdm.
  pose proof (Z.mod_pos_bound a b Hb) as Hm.
  destruct (2 * (a mod b) <? b) eqn:E1; [apply Z.ltb_lt in E1; nia|].
  apply Z.ltb_ge in E1.
  destruct (b <? 2 * (a mod b)) eqn:E2; [apply Z.ltb_lt in E2; nia|].
  apply Z.ltb_ge in E2.
  destruct (Z.even (a / b)); nia.
Qed.

Lemma round_div_bounds (a b lo hi : Z) :
  0 < b -> lo * b <= a <= hi * b -> lo <= round_div a b <= hi.
Proof.
  intros Hb [Hlo Hhi]. unfold round_div.
  pose proof (Z.div_mod a b ltac:(lia)) as Hdm.
  pose proof (Z.mod_pos_bound a b Hb) as Hm.
  assert (Hq : lo <= a / b <= hi) by (split; nia).
  assert (Hup : 0 < a mod b -> a / b + 1 <= hi) by nia.
  destruct (2 * (a mod b) <? b) eqn:E1; [lia|]. apply Z.ltb_ge in E1.
  destruct (b <? 2 * (a mod b)) eqn:E2; [lia|].
  destruct (Z.even (a / b)); lia.
Qed.

(** One exponent further the scale is ten times smaller. *)
Lemma scale_next (X a b : Z) :
  scale X = (a, b) ->
  exists a' b',
    scale (X + 1) = (a', b')
    /\ ((a = 10 * a' /\ b' = b) \/ (a' = a /\ b' = 10 * b)).
Proof.
  unfold scale. intros H. destruct (Z_le_gt_dec X 4) as [H4|H4].
  - replace (X <=? 5) with true in H by (symmetry; apply Z.leb_le; lia).
    replace (X + 1 <=? 5) with true by (symmetry; apply Z.leb_le; lia).
    apply pair_equal_spec in H. destruct H as [<- <-].
    exists (10 ^ (5 - (X + 1))), 1. split; [reflexivity|].
    left. split; [|reflexivity].
    replace (5 - X) with (Z.succ (5 - (X + 1))) by lia.
    now rewrite Z.pow_succ_r by lia.
  - replace (X + 1 <=? 5) with false by (symmetry; apply Z.leb_gt; lia).
    exists 1, (10 ^ (X + 1 - 5)). split; [reflexivity|]. right.
    destruct (Z.eq_dec X 5) as [E5|Hne].
    + replace (X <=? 5) with true in H by (symmetry; apply Z.leb_le; lia).
      apply pair_equal_spec in H. destruct H as [<- <-].
      replace (5 - X) with 0 by lia. replace (X + 1 - 5) with 1 by lia.
      split; reflexivity.
    + replace (X <=? 5) with false in H by (symmetry; apply Z.leb_gt; lia).
      apply pair_equal_spec in H. destruct H as [<- <-].
      split; [reflexivity|].
      replace (X + 1 - 5) with (Z.succ (X - 5)) by lia.
      now rewrite Z.pow_succ_r by lia.
Qed.

(** The digits and the exponent the text is made of: six digits, and the
    value they stand for is the given one rounded to nearest. *)
Lemma significant6_spec (num den : Z) :
  0 < num -> 0 < den ->
  let '(D, X) := significant6 num den in
  100000 <= D <= 999999 /\ within_half_unit num den D X.
Proof.
  intros Hnum Hden. unfold significant6, within_half_unit.
  pose proof (decimal_exponent_spec num den Hnum Hden) as Hexp.
  generalize dependent (decimal_exponent num den). intros X Hexp.
  destruct (scale X) as [a b] eqn:Es.
  destruct Hexp as (Hpos & Hlo & Hhi).
  pose proof (round_div_spec (num * a) (den * b) Hpos) as Hround.
  pose proof (round_div_bounds (num * a) (den * b) 100000 1000000 Hpos
                ltac:(lia)) as Hrange.
  generalize dependent (round_div (num * a) (den * b)). intros D Hround Hrange.
  destruct (D =? 1000000) eqn:ED.
  - apply Z.eqb_eq in ED. subst D. split; [lia|].
    destruct (scale_next X a b Es) as (a' & b' & -> & [[-> ->]|[-> ->]]); nia.
  - apply Z.eqb_neq in ED. rewrite Es. split; [lia | exact Hround].
Qed.

Lemma ratio_positive (m : positive) (e : Z) :
  let '(num, den) := ratio m e in 0 < num /\ 0 < den.
Proof.
  unfold ratio. destruct (0 <=? e) eqn:E.
  - apply Z.leb_le in E. split; [|lia].
    assert (0 < 2 ^ e) by (apply Z.pow_pos_nonneg; lia). lia.
  - apply Z.leb_gt in E. split; [lia|]. apply Z.pow_pos_nonneg; lia.
Qed.

End FloatFacts.

(** C6, as the code has it.  The first [npix] elements of a coordinate
    table are written in their order, each as the stream writes a
    [float] by default: a finite value other than zero as six decimal
    digits [D] and a decimal exponent [X], where [D * 10^(X - 5)] is
    the value rounded to six significant digits (to nearest). *)
Theorem floats_written_with_six_digits (array : list spec_float) (npix : Z) :
  is_size_t npix ->
  npix <= Z.of_nat (List.length array) ->
  arrayToJsonArray array npix
  = Some (render_array (firstn (Z.to_nat npix) array))
  /\ forall s m e,
       In (S754_finite s m e) (firstn (Z.to_nat npix) array) ->
       let '(num, den) := FloatText.ratio m e in
       let '(D, X) := FloatText.significant6 num den in
       put (S754_finite s m e)
       = (if s then "-" else "") <<< FloatText.general_text D X
       /\ 100000 <= D <= 999999
       /\ FloatText.within_half_unit num den D X.
Proof.
  intros Hn Hlen. split; [now apply arrayToJsonArray_text|].
  intros s m e _.
  pose proof (ratio_positive m e) as Hpos.
  unfold put, put_float32, FloatText.put_float.
  destruct (FloatText.ratio m e) as [num den]. destruct Hpos as [Hnum Hden].
  pose proof (significant6_spec num den Hnum Hden) as Hsig.
  destruct (FloatText.significant6 num den) as [D X].
  destruct Hsig as [Hrange Hhalf]. split; [reflexivity|]. split; assumption.
Qed.

Lemma floats_written_with_six_digits_witness :
  arrayToJsonArray [FloatSamples.f_1_23456789; FloatSamples.f_16777217] 2
  = Some (render_array
            (firstn (Z.to_nat 2)
                    [FloatSamples.f_1_23456789; FloatSamples.f_16777217]))
  /\ forall s m e,
       In (S754_finite s m e)
          (firstn (Z.to_nat 2)
                  [FloatSamples.f_1_23456789; FloatSamples.f_16777217]) ->
       let '(num, den) := FloatText.ratio m e in
       let '(D, X) := FloatText.significant6 num den in
       put (S754_finite s m e)
       = (if s then "-" else "") <<< FloatText.general_text D X
       /\ 100000 <= D <= 999999
       /\ FloatText.within_half_unit num den D X.
Proof.
  apply (floats_written_with_six_digits
           [FloatSamples.f_1_23456789; FloatSamples.f_16777217] 2).
  - unfold is_size_t, SIZE_MAX. lia.
  - vm_compute. discriminate.
Defined.

(** C6, as the specification has it, fails: the floats [1.23456789f] and
    the next one are different values, both are written [1.23457], which
    is the value of neither; [16777217.0f] is written [1.67772e+07]. *)
Lemma floats_lose_digits :
  FloatText.is_float FloatSamples.f_1_23456789 = true
  /\ FloatText.is_float FloatSamples.f_next = true
  /\ FloatSamples.f_1_23456789 <> FloatSamples.f_next
  /\ arrayToJsonArray [FloatSamples.f_1_23456789] 1 = Some "[1.23457]"
  /\ arrayToJsonArray [FloatSamples.f_next] 1 = Some "[1.23457]"
  /\ 10356299 * 100000 <> 123457 * 2 ^ 23
  /\ 10356300 * 100000 <> 123457 * 2 ^ 23
  /\ arrayToJsonArray [FloatSamples.f_16777217] 1 = Some "[1.67772e+07]".
Proof.
  repeat (split; [first [reflexivity | discriminate | (vm_compute; discriminate)]|]).
  reflexivity.
Qed.

(** * Runs that stay inside the tables *)

Section ArrayFrame.
Context {T : Type} `{Insertable T}.



End ArrayFrame.


Section NeighborsFrame.
Variable NUM_NEIGHBORS : Z.
Variables neighbors behind : list Z.




End NeighborsFrame.

Section DocumentFrame.
Variable NUM_NEIGHBORS : Z.
Context {float : Type} `{Insertable float}.





End DocumentFrame.

Lemma is_some_not_none {A : Type} (o : option A) : is_some o = true -> o <> None.
Proof. destruct o; [discriminate | discriminate]. Qed.




(** * The records of [main] *)

Lemma firstn_seq_shorter (n : nat) :
  forall start len : nat, (n <= len)%nat -> firstn n (seq start len) = seq start n.
Proof.
  induction n as [|n IH]; intros start len Hle; [reflexivity|].
  destruct len as [|len]; [lia|]. cbn [seq firstn]. f_equal. apply IH. lia.
Qed.

Lemma pixels_firstn (n m : Z) :
  0 <= n <= m -> firstn (Z.to_nat n) (pixels m) = pixels n.
Proof.
  intros Hn. unfold pixels. rewrite firstn_map, firstn_seq_shorter by lia.
  reflexivity.
Qed.

Section MainRecords.
Variable NUM_NEIGHBORS : Z.
Context {float : Type} `{Insertable float}.

(** The text of a record that is written: the first [npix] elements of
    the coordinate arrays and the lists streamed for the pixels. *)
Lemma written_record (json : string) (nadc : Z)
      (posX posY radius : list float) (neighbors : list Z) (npix : Z)
      (more : bool) (result : string) :
  is_size_t npix ->
  writeDataSetToJson NUM_NEIGHBORS json nadc posX posY radius neighbors npix more
  = Some result ->
  (npix <= Z.of_nat (List.length posX)
   /\ npix <= Z.of_nat (List.length posY)
   /\ npix <= Z.of_nat (List.length radius))
  /\ result
     = json <<< entry_text nadc npix
         (render_array (firstn (Z.to_nat npix) posX))
         (render_array (firstn (Z.to_nat npix) posY))
         (render_array (firstn (Z.to_nat npix) radius))
         (render_neighbors
            (map (emitted (fst (neighborsToJsonArray_run NUM_NEIGHBORS neighbors npix)))
                 (pixels npix)))
         more.
Proof.
  intros Hn Hres.
  assert (Hlen : forall a : list float,
             arrayToJsonArray a npix <> None -> npix <= Z.of_nat (List.length a)).
  { intros a Ha.
    destruct (Z_lt_le_dec (Z.of_nat (List.length a)) npix) as [E|E]; [|exact E].
    now rewrite (arrayToJsonArray_none a npix E) in Ha. }
  assert (Hparts : arrayToJsonArray posX npix <> None
                   /\ arrayToJsonArray posY npix <> None
                   /\ arrayToJsonArray radius npix <> None
                   /\ neighborsToJsonArray NUM_NEIGHBORS neighbors npix <> None).
  { unfold writeDataSetToJson in Hres.
    destruct (arrayToJsonArray posX npix); [|discriminate].
    destruct (arrayToJsonArray posY npix); [|discriminate].
    destruct (arrayToJsonArray radius npix); [|discriminate].
    destruct (neighborsToJsonArray NUM_NEIGHBORS neighbors npix); [|discriminate].
    repeat split; discriminate. }
  destruct Hparts as (Px & Py & Pr & Pn).
  pose proof (Hlen _ Px) as Lx. pose proof (Hlen _ Py) as Ly.
  pose proof (Hlen _ Pr) as Lr.
  split; [tauto|].
  destruct (neighborsToJsonArray NUM_NEIGHBORS neighbors npix) as [t|] eqn:Et;
    [|now contradiction Pn].
  pose proof (run_text_emitted NUM_NEIGHBORS neighbors npix t Hn Et) as Ht.
  rewrite (writeDataSetToJson_layout NUM_NEIGHBORS json nadc posX posY radius
             neighbors npix more _ _ _ t
             (arrayToJsonArray_text posX npix Hn Lx)
             (arrayToJsonArray_text posY npix Hn Ly)
             (arrayToJsonArray_text radius npix Hn Lr) Et) in Hres.
  injection Hres as <-. now rewrite <- Ht.
Qed.

(** C10.  When [main] writes its document from tables of [int]s, the
    document ends with the record under the key 492 followed by the
    record under the key 384, and the latter is the former cut down to
    379 pixels: its x, y and r sequences are the first 379 elements of
    those of record 492, and its neighbour lists are those of the first
    379 pixels of record 492 without their entries from 379 on. *)
Theorem record_384_truncates_record_492 (cams : WhippleCams float) :
  int_table (WC490Neighbors cams) ->
  main_json NUM_NEIGHBORS cams <> None ->
  let xs := firstn 490 (WC490Xcoord cams) in
  let ys := firstn 490 (WC490Ycoord cams) in
  let rs := firstn 490 (WC490Radius cams) in
  let ns :=
    map (emitted (fst (neighborsToJsonArray_run NUM_NEIGHBORS
                         (WC490Neighbors cams) 490)))
        (pixels 490) in
  (List.length xs = 490%nat /\ List.length ys = 490%nat
   /\ List.length rs = 490%nat /\ List.length ns = 490%nat)
  /\ exists front : string,
       main_json NUM_NEIGHBORS cams
       = Some (front
               <<< entry_text 492 490 (render_array xs) (render_array ys)
                              (render_array rs) (render_neighbors ns) true
               <<< entry_text 384 379
                     (render_array (firstn 379 xs))
                     (render_array (firstn 379 ys))
                     (render_array (firstn 379 rs))
                     (render_neighbors
                        (map (filter (fun v => v <? 379)) (firstn 379 ns)))
                     false
               <<< "}" <<< nl).
Proof.
  intros Hint Hs xs ys rs ns.
  assert (H490 : is_size_t 490) by (unfold is_size_t, SIZE_MAX; lia).
  assert (H379 : is_size_t 379) by (unfold is_size_t, SIZE_MAX; lia).
  rewrite main_json_is_five_entries in *.
  destruct (writeDataSetToJson NUM_NEIGHBORS "" 120 _ _ _ _ 109 true) as [e1|];
    [|now contradiction Hs].
  destruct (writeDataSetToJson NUM_NEIGHBORS "" 156 _ _ _ _ 151 true) as [e2|];
    [|now contradiction Hs].
  destruct (writeDataSetToJson NUM_NEIGHBORS "" 336 _ _ _ _ 331 true) as [e3|];
    [|now contradiction Hs].
  destruct (writeDataSetToJson NUM_NEIGHBORS "" 492 _ _ _ _ 490 true) as [e4|] eqn:E4;
    [|now contradiction Hs].
  destruct (writeDataSetToJson NUM_NEIGHBORS "" 384 _ _ _ _ 379 false) as [e5|] eqn:E5;
    [|now contradiction Hs].
  destruct (written_record _ _ _ _ _ _ _ _ _ H490 E4) as ((Lx & Ly & Lr) & ->).
  destruct (written_record _ _ _ _ _ _ _ _ _ H379 E5) as (_ & ->).
  assert (Hcut : forall a : list float,
             firstn 379 (firstn 490 a) = firstn (Z.to_nat 379) a).
  { intros a. rewrite firstn_firstn. reflexivity. }
  assert (Hns : map (filter (fun v => v <? 379)) (firstn 379 ns)
                = map (emitted (fst (neighborsToJsonArray_run NUM_NEIGHBORS
                                       (WC490Neighbors cams) 379)))
                      (pixels 379)).
  { unfold ns. rewrite firstn_map.
    change (firstn 379 (pixels 490)) with (firstn (Z.to_nat 379) (pixels 490)).
    rewrite (pixels_firstn 379 490) by lia. rewrite map_map.
    symmetry. apply map_ext_in. intros i Hi. apply In_pixels in Hi.
    apply truncated_neighbors; try assumption; unfold SIZE_MAX, INT_MAX; lia. }
  split.
  - unfold xs, ys, rs, ns. rewrite !length_firstn, length_map, pixels_length.
    change (Z.to_nat 490) with 490%nat. lia.
  - exists ("{" <<< nl <<< header_line <<< e1 <<< e2 <<< e3).
    rewrite Hns. unfold xs, ys, rs. rewrite !Hcut. reflexivity.
Qed.

End MainRecords.

Lemma record_384_truncates_record_492_witness :
  let xs := firstn 490 (WC490Xcoord Samples.ring_cams) in
  let ys := firstn 490 (WC490Ycoord Samples.ring_cams) in
  let rs := firstn 490 (WC490Radius Samples.ring_cams) in
  let ns :=
    map (emitted (fst (neighborsToJsonArray_run 3
                         (WC490Neighbors Samples.ring_cams) 490)))
        (pixels 490) in
  (List.length xs = 490%nat /\ List.length ys = 490%nat
   /\ List.length rs = 490%nat /\ List.length ns = 490%nat)
  /\ exists front : string,
       main_json 3 Samples.ring_cams
       = Some (front
               <<< entry_text 492 490 (render_array xs) (render_array ys)
                              (render_array rs) (render_neighbors ns) true
               <<< entry_text 384 379
                     (render_array (firstn 379 xs))
                     (render_array (firstn 379 ys))
                     (render_array (firstn 379 rs))
                     (render_neighbors
                        (map (filter (fun v => v <? 379)) (firstn 379 ns)))
                     false
               <<< "}" <<< nl).
Proof.
  apply (record_384_truncates_record_492 3 Samples.ring_cams).
  - vm_compute. reflexivity.
  - apply is_some_not_none. vm_compute. reflexivity.
Defined.

(** * Where a scan stops *)









(** * Runs that leave the table *)

Lemma row_loop_fault_read (n i : Z) :
  forall (cells : list Z) (j : Z) (oss : string) (first : bool),
    j + Z.of_nat (List.length cells) <= INT_MAX ->
    row_faults cells j = true ->
    In (Read i (j + Z.of_nat (List.length cells)))
       (fst (row_loop n i cells j oss first)).
Proof.
  induction cells as [|c rest IH]; intros j oss first Hj Hf.
  - cbn. left. f_equal. lia.
  - cbn [row_loop row_faults List.length] in *.
    destruct (c =? -1); [discriminate|].
    replace (j =? INT_MAX) with false in * by (symmetry; apply Z.eqb_neq; lia).
    replace (j + Z.of_nat (S (List.length rest)))
      with (j + 1 + Z.of_nat (List.length rest)) by lia.
    destruct (to_size_t c >=? n).
    + specialize (IH (j + 1) oss first ltac:(lia) Hf).
      destruct (row_loop n i rest (j + 1) oss first) as [t r].
      cbn [fst] in *. now right.
    + match goal with |- context [row_loop n i rest (j + 1) ?o false] =>
        specialize (IH (j + 1) o false ltac:(lia) Hf);
        destruct (row_loop n i rest (j + 1) o false) as [t r] end.
      cbn [fst] in *. now right; right.
Qed.

Lemma tubes_loop_fault_read (NUM_NEIGHBORS : Z) (neighbors : list Z) (n : Z) :
  Z.of_nat (List.length neighbors) <= INT_MAX ->
  forall (todo : nat) (i : Z) (oss : string),
    snd (tubes_loop NUM_NEIGHBORS neighbors n todo i oss) = None ->
    exists (i' : Z) (d : nat),
      In (Read i' (Z.of_nat d))
         (fst (tubes_loop NUM_NEIGHBORS neighbors n todo i oss))
      /\ nth_error (row_base NUM_NEIGHBORS neighbors i') d = None.
Proof.
  intros Hlen. induction todo as [|todo IH]; intros i oss Hs; [discriminate|].
  cbn [tubes_loop] in *.
  pose proof (row_base_length NUM_NEIGHBORS neighbors i) as Hrl.
  pose proof (row_loop_fault_read n i (row_base NUM_NEIGHBORS neighbors i) 0
                (oss <<< "[ ") true ltac:(lia)) as Hread.
  destruct (row_loop_spec n i (row_base NUM_NEIGHBORS neighbors i) 0
                          (oss <<< "[ ") true) as (_ & Hr & _).
  destruct (row_loop n i (row_base NUM_NEIGHBORS neighbors i) 0 (oss <<< "[ ") true)
    as [t r].
  cbn [fst snd] in Hread, Hr.
  destruct (row_faults (row_base NUM_NEIGHBORS neighbors i) 0); subst r.
  - exists i, (List.length (row_base NUM_NEIGHBORS neighbors i)).
    cbn [fst]. split; [now apply Hread|]. apply nth_error_None. lia.
  - match type of Hs with context [tubes_loop _ _ _ todo (i + 1) ?o] =>
      specialize (IH (i + 1) o);
      destruct (tubes_loop NUM_NEIGHBORS neighbors n todo (i + 1) o) as [t' r'] end.
    cbn [fst snd] in *. destruct (IH Hs) as (i' & d & Hin & Hn).
    exists i', d. split; [|exact Hn]. apply in_or_app. now right.
Qed.

(** X2.  On a table of at most [INT_MAX] cells, the run evaluates a cell
    that lies outside the storage of the table exactly when, for one of
    the first [numTubes] rows, no sentinel lies between the start of
    that row and the end of the table. *)
Theorem run_leaves_table_iff
        (NUM_NEIGHBORS : Z) (neighbors : list Z) (numTubes : Z) :
  is_size_t numTubes ->
  Z.of_nat (List.length neighbors) <= INT_MAX ->
  ((exists i j,
       In (Read i j) (fst (neighborsToJsonArray_run NUM_NEIGHBORS neighbors numTubes))
       /\ nth_error neighbors (Z.to_nat (i * NUM_NEIGHBORS) + Z.to_nat j) = None)
   <-> exists r, 0 <= r < numTubes
                 /\ has_sentinel (row_base NUM_NEIGHBORS neighbors r) = false).
Proof.
  intros Hn Hlen.
  pose proof (run_text NUM_NEIGHBORS neighbors numTubes Hn) as Htext.
  unfold neighborsToJsonArray in Htext.
  assert (Hsnd : snd (neighborsToJsonArray_run NUM_NEIGHBORS neighbors numTubes) = None
                 <-> snd (tubes_loop NUM_NEIGHBORS neighbors numTubes
                                     (Z.to_nat numTubes) 0 "[ ") = None).
  { unfold neighborsToJsonArray_run.
    destruct (tubes_loop NUM_NEIGHBORS neighbors numTubes (Z.to_nat numTubes) 0 "[ ")
      as [t r].
    cbn [snd]. destruct r; split; congruence. }
  destruct (existsb _ (pixels numTubes)) eqn:E.
  - split; intros _.
    + apply existsb_exists in E. destruct E as (r & Hr & Hf).
      exists r. split; [apply In_pixels, Hr|].
      rewrite (proj1 (row_base_scan NUM_NEIGHBORS neighbors r Hlen)) in Hf.
      now destruct (has_sentinel _).
    + apply Hsnd in Htext.
      destruct (tubes_loop_fault_read _ _ _ Hlen _ _ _ Htext) as (i & d & Hin & Hnone).
      exists i, (Z.of_nat d). rewrite run_trace. split; [exact Hin|].
      unfold row_base in Hnone. rewrite nth_error_skipn in Hnone.
      now rewrite Nat2Z.id.
  - split.
    + intros (i & j & Hin & Hnone). exfalso. rewrite run_trace in Hin.
      assert (Hs : snd (tubes_loop NUM_NEIGHBORS neighbors numTubes
                                   (Z.to_nat numTubes) 0 "[ ") <> None).
      { intros Hc. apply Hsnd in Hc. congruence. }
      destruct (tubes_loop_reads_in_storage _ _ _ _ _ _ _ _ Hs Hin)
        as (d & v & -> & Hv).
      unfold row_base in Hv. rewrite nth_error_skipn in Hv.
      rewrite Nat2Z.id in Hnone. congruence.
    + intros (r & Hr & Hs). exfalso.
      assert (Hex : existsb (fun r => row_faults (row_base NUM_NEIGHBORS neighbors r) 0)
                            (pixels numTubes) = true).
      { apply existsb_exists. exists r. split; [apply In_pixels, Hr|].
        rewrite (proj1 (row_base_scan NUM_NEIGHBORS neighbors r Hlen)), Hs.
        reflexivity. }
      congruence.
Qed.

Lemma run_leaves_table_iff_witness :
  (exists i j,
      In (Read i j) (fst (neighborsToJsonArray_run 3 [1; 2; -1; 0; 2; 1] 2))
      /\ nth_error [1; 2; -1; 0; 2; 1] (Z.to_nat (i * 3) + Z.to_nat j) = None)
  <-> exists r, 0 <= r < 2 /\ has_sentinel (row_base 3 [1; 2; -1; 0; 2; 1] r) = false.
Proof.
  apply (run_leaves_table_iff 3 [1; 2; -1; 0; 2; 1] 2).
  - unfold is_size_t, SIZE_MAX. lia.
  - vm_compute. discriminate.
Defined.

(** * The sample floats *)

(** The three sample values are [float]s, and the stream writes whole
    numbers of up to six digits like integers. *)
Example sample_floats :
  map FloatText.is_float
      [FloatSamples.f_1_23456789; FloatSamples.f_next; FloatSamples.f_16777217]
  = [true; true; true]
  /\ map put [S754_finite false 12582912 (-17); S754_finite false 13107200 (-17);
              S754_zero false; S754_finite true 8388608 (-24)]
     = ["96"; "100"; "0"; "-0.5"].
Proof. split; reflexivity. Qed.
